(** * httpcheck: a shallow embedding of [main] and its verified contract

    The program is one Go function, [main], that parses the command line,
    resolves indirections through the process environment, issues a single
    HTTP request and maps the response to a process exit status.

    The embedding follows the source block by block.  Go strings are byte
    strings ([string], whose characters are 8-bit [ascii]); Go's [int] is
    the 64-bit signed integer, carried in [Z] with the range check that
    [strconv.Atoi] performs; the [map[int]bool] holding the accepted codes
    is a [gmap Z bool], [nil] being [None].  Output, environment reads and
    network traffic are recorded as a trace of events; [os.Exit] is the
    short-circuit of a small monad. *)

From Stdlib Require Import ZArith Ascii String List Bool Lia.
From stdpp Require Import base decidable option list gmap strings.

Local Open Scope Z_scope.
#[local] Set Warnings "-clear-no-such-hyp".

(** ** Bytes and strings of the Go runtime *)

Module GoString.

(** The numeric value of a byte. *)
Definition byteZ (c : ascii) : Z := Z.of_N (N_of_ascii c).

Definition byteIs (c : ascii) (n : Z) : bool := byteZ c =? n.

Fixpoint len (s : string) : nat :=
  match s with
  | EmptyString => O
  | String _ r => S (len r)
  end.

Definition isEmpty (s : string) : bool :=
  match s with
  | EmptyString => true
  | String _ _ => false
  end.

Fixpoint revOnto (s acc : string) : string :=
  match s with
  | EmptyString => acc
  | String c r => revOnto r (String c acc)
  end.

Definition reverse (s : string) : string := revOnto s EmptyString.

(** [strings.HasPrefix]. *)
Fixpoint HasPrefix (s p : string) : bool :=
  match p, s with
  | EmptyString, _ => true
  | String _ _, EmptyString => false
  | String a p', String b s' => if Ascii.eqb a b then HasPrefix s' p' else false
  end.

(** [strings.Contains s substr]: [substr] occurs in [s] at some byte
    offset (the empty string occurs everywhere). *)
Fixpoint Contains (s substr : string) : bool :=
  if HasPrefix s substr then true
  else match s with
       | EmptyString => false
       | String _ r => Contains r substr
       end.

(** [strings.Split s ","]: the fields between the commas; always at least
    one field. *)
Fixpoint splitComma (s : string) : string * list string :=
  match s with
  | EmptyString => (EmptyString, [])
  | String c r =>
      let '(hd, tl) := splitComma r in
      if byteIs c 44 then (EmptyString, hd :: tl) else (String c hd, tl)
  end.

Definition Split (s : string) : list string :=
  let '(hd, tl) := splitComma s in hd :: tl.

(** [strings.Join elems ","]. *)
Fixpoint Join (elems : list string) : string :=
  match elems with
  | [] => EmptyString
  | [e] => e
  | e :: rest => e +:+ String "," (Join rest)
  end.

(** *** [strings.ToUpper]

    ASCII letters are mapped to upper case.  Bytes from 0x80 on are kept:
    Go maps the runes they encode to their upper case, which is never one
    of the letters of GET or HEAD, so the comparison that [main] makes on
    the result is the same. *)
Definition upperByte (c : ascii) : ascii :=
  let n := byteZ c in
  if (97 <=? n) && (n <=? 122) then ascii_of_N (Z.to_N (n - 32)) else c.

Fixpoint ToUpper (s : string) : string :=
  match s with
  | EmptyString => EmptyString
  | String c r => String (upperByte c) (ToUpper r)
  end.

(** *** [strings.TrimSpace]

    White space is Unicode's White_Space property, decoded from UTF-8:
    the six ASCII characters, U+0085 and U+00A0 (two bytes), U+1680,
    U+2000..U+200A, U+2028, U+2029, U+202F, U+205F and U+3000 (three
    bytes).  A byte sequence that is not one of these encodings is not
    white space (an invalid sequence decodes to U+FFFD). *)
Definition asciiSpace (a : ascii) : bool :=
  let n := byteZ a in ((9 <=? n) && (n <=? 13)) || (n =? 32).

Definition space2 (a b : ascii) : bool :=
  byteIs a 194 && (byteIs b 133 || byteIs b 160).

Definition space3 (a b c : ascii) : bool :=
  let z := byteZ c in
  (byteIs a 225 && byteIs b 154 && byteIs c 128)
  || (byteIs a 226 && byteIs b 128
      && (((128 <=? z) && (z <=? 138)) || (z =? 168) || (z =? 169) || (z =? 175)))
  || (byteIs a 226 && byteIs b 129 && byteIs c 159)
  || (byteIs a 227 && byteIs b 128 && byteIs c 128).

(** Drop white-space runes from the front.  [backwards] says that the
    string is read from its end, so that the bytes of a rune appear in the
    opposite order. *)
Fixpoint dropSpace (backwards : bool) (s : string) : string :=
  match s with
  | String a r1 =>
      if asciiSpace a then dropSpace backwards r1
      else match r1 with
           | String b r2 =>
               if (if backwards then space2 b a else space2 a b)
               then dropSpace backwards r2
               else match r2 with
                    | String c r3 =>
                        if (if backwards then space3 c b a else space3 a b c)
                        then dropSpace backwards r3
                        else s
                    | EmptyString => s
                    end
           | EmptyString => s
           end
  | EmptyString => s
  end.

Definition TrimLeftSpace (s : string) : string := dropSpace false s.
Definition TrimRightSpace (s : string) : string :=
  reverse (dropSpace true (reverse s)).
Definition TrimSpace (s : string) : string := TrimRightSpace (TrimLeftSpace s).

End GoString.

(** ** [strconv.Atoi] *)

Module Strconv.
Import GoString.

Definition minInt : Z := - 2 ^ 63.
Definition maxInt : Z := 2 ^ 63 - 1.

Definition isDigit (c : ascii) : bool :=
  let n := byteZ c in (48 <=? n) && (n <=? 57).

(** The digit loop: [n = n*10 + int(ch - '0')], a syntax error at the first
    byte that is not a decimal digit. *)
Fixpoint digits (s : string) (n : Z) : option Z :=
  match s with
  | EmptyString => Some n
  | String ch r => if isDigit ch then digits r (n * 10 + (byteZ ch - 48)) else None
  end.

(** [Atoi s] is [Some n] when Go returns [n, nil] and [None] when [err] is
    not nil: the string is empty, has no digit after its sign, has a byte
    that is not a digit, or denotes a value outside [int]. *)
Definition Atoi (s : string) : option Z :=
  let '(neg, ds) :=
    match s with
    | String c r =>
        if byteIs c 45 then (true, r)
        else if byteIs c 43 then (false, r)
        else (false, s)
    | EmptyString => (false, s)
    end in
  if isEmpty ds then None
  else match digits ds 0 with
       | None => None
       | Some un =>
           let v := if neg then - un else un in
           if (minInt <=? v) && (v <=? maxInt) then Some v else None
       end.

End Strconv.


(** ** The process: events, exit and the monad of [main] *)

(** [time.Duration] is an [int64] count of nanoseconds, and
    [time.Duration(n) * time.Second] wraps around as [int64] does. *)
Definition wrapInt64 (z : Z) : Z := (z + 2 ^ 63) mod 2 ^ 64 - 2 ^ 63.
Definition Second : Z := 1000000000.
Definition seconds (n : Z) : Z := wrapInt64 (n * Second).
Arguments seconds : simpl never.

(** Configuration of the [http.Client] that [main] builds: its [Timeout], a
    duration, and whether the transport skips certificate verification. *)
Record Client := mkClient { Timeout : Z; InsecureSkipVerify : bool }.

(** What the text printed at each output statement of the source is made
    from.  The rendering of an error value is a function of the token that
    caused it, which is what the message carries. *)
Inductive Msg :=
| MsgUsage                                         (* printHelp() *)
| MsgNeedsArg (flag : string)                      (* "Erro: %s precisa de um argumento." *)
| MsgTimeoutNotInt (tok : string)                  (* "-t/--timeout precisa de um inteiro válido" *)
| MsgBadMethod (tok : string)                      (* "Método HTTP inválido", token shown in upper case *)
| MsgUnknownOption (arg : string)                  (* "Opção desconhecida" *)
| MsgUrlFromEnv (name value : string)
| MsgCodesFromEnv (name value : string)
| MsgBodyFromEnv (name value : string)
| MsgUrlMissing                                    (* "O URL deve ser fornecido ..." *)
| MsgBadCode (codeStr : string)                    (* "Erro ao converter código aceite" *)
| MsgInsecureWarning
| MsgRequestFailed (url method err : string)
| MsgBodyReadFailed (err : string)
| MsgBodyLacks (substr : string)
| MsgBodyHas (substr : string)
| MsgAccepted (url method : string) (code : Z)
| MsgNotAccepted (url method : string) (code : Z) (acceptedCodesStr : string)
| MsgNoCodes (url method : string) (code : Z).

Inductive Event :=
| Stdout (m : Msg)
| Stderr (m : Msg)
| Getenv (name : string)                 (* os.Getenv *)
| HttpGet (c : Client) (url : string)    (* client.Get *)
| HttpHead (c : Client) (url : string)   (* client.Head *)
| ReadAll                                (* io.ReadAll(resp.Body) *)
| NilDereference.                        (* resp.Body on a nil response *)

(** What reading the body of a response yields, and what a request yields. *)
Inductive BodyResult := BodyBytes (body : string) | BodyError (err : string).

Record Response := mkResponse { StatusCode : Z; Body : BodyResult }.

Inductive Reply := Replied (resp : Response) | TransportError (err : string).

(** The world outside the process: the environment ([os.Getenv] yields the
    empty string for a variable that is not set) and the network. *)
Record World := mkWorld {
  environ : string -> string;
  httpGet : Client -> string -> Reply;
  httpHead : Client -> string -> Reply
}.

Inductive Result (A : Type) :=
| Exit (code : Z)        (* os.Exit(code) was called *)
| Ret (a : A).
Arguments Exit {A} code.
Arguments Ret {A} a.

(** A computation: the events so far, and either a value or the exit. *)
Definition M (A : Type) : Type := list Event * Result A.

Definition ret {A} (a : A) : M A := ([], Ret a).

Definition bind {A B} (m : M A) (f : A -> M B) : M B :=
  match m with
  | (t, Exit c) => (t, Exit c)
  | (t, Ret a) => let '(t', r) := f a in (t ++ t', r)
  end.

Notation "x <- m ;; k" := (bind m (fun x => k))
  (at level 90, m at level 89, right associativity).
Notation "m ;;; k" := (bind m (fun _ => k))
  (at level 90, right associativity).

Definition emit (e : Event) : M unit := ([e], Ret tt).
Definition osExit {A} (code : Z) : M A := ([], Exit code).
Definition when (b : bool) (m : M unit) : M unit := if b then m else ret tt.
Definition printHelp : M unit := emit (Stdout MsgUsage).
Definition osGetenv (w : World) (name : string) : M string :=
  ([Getenv name], Ret (environ w name)).

Definition trace {A} (m : M A) : list Event := fst m.

(** Exit status of the process: the argument of [os.Exit], or 0 when [main]
    returns. *)
Definition status (m : M unit) : Z :=
  match snd m with
  | Exit c => c
  | Ret _ => 0
  end.

(** ** The local variables of [main] *)

Record Vars := mkVars {
  url : string;
  urlEnvName : string;
  acceptedCodesStr : string;
  acceptedCodesEnvName : string;
  verbose : bool;
  insecureSkipVerify : bool;
  help : bool;
  timeoutSeconds : Z;
  httpMethod : string;
  bodyContains : string;
  bodyContainsEnvName : string
}.

(** Their declarations: [timeoutSeconds = 5], [httpMethod = "GET"], the rest
    at the zero value. *)
Definition declared : Vars :=
  mkVars "" "" "" "" false false false 5 "GET" "" "".

Definition set_url x v :=
  mkVars x (urlEnvName v) (acceptedCodesStr v) (acceptedCodesEnvName v) (verbose v)
    (insecureSkipVerify v) (help v) (timeoutSeconds v) (httpMethod v) (bodyContains v)
    (bodyContainsEnvName v).
Definition set_urlEnvName x v :=
  mkVars (url v) x (acceptedCodesStr v) (acceptedCodesEnvName v) (verbose v)
    (insecureSkipVerify v) (help v) (timeoutSeconds v) (httpMethod v) (bodyContains v)
    (bodyContainsEnvName v).
Definition set_acceptedCodesStr x v :=
  mkVars (url v) (urlEnvName v) x (acceptedCodesEnvName v) (verbose v)
    (insecureSkipVerify v) (help v) (timeoutSeconds v) (httpMethod v) (bodyContains v)
    (bodyContainsEnvName v).
Definition set_acceptedCodesEnvName x v :=
  mkVars (url v) (urlEnvName v) (acceptedCodesStr v) x (verbose v)
    (insecureSkipVerify v) (help v) (timeoutSeconds v) (httpMethod v) (bodyContains v)
    (bodyContainsEnvName v).
Definition set_verbose x v :=
  mkVars (url v) (urlEnvName v) (acceptedCodesStr v) (acceptedCodesEnvName v) x
    (insecureSkipVerify v) (help v) (timeoutSeconds v) (httpMethod v) (bodyContains v)
    (bodyContainsEnvName v).
Definition set_insecureSkipVerify x v :=
  mkVars (url v) (urlEnvName v) (acceptedCodesStr v) (acceptedCodesEnvName v) (verbose v)
    x (help v) (timeoutSeconds v) (httpMethod v) (bodyContains v)
    (bodyContainsEnvName v).
Definition set_help x v :=
  mkVars (url v) (urlEnvName v) (acceptedCodesStr v) (acceptedCodesEnvName v) (verbose v)
    (insecureSkipVerify v) x (timeoutSeconds v) (httpMethod v) (bodyContains v)
    (bodyContainsEnvName v).
Definition set_timeoutSeconds x v :=
  mkVars (url v) (urlEnvName v) (acceptedCodesStr v) (acceptedCodesEnvName v) (verbose v)
    (insecureSkipVerify v) (help v) x (httpMethod v) (bodyContains v)
    (bodyContainsEnvName v).
Definition set_httpMethod x v :=
  mkVars (url v) (urlEnvName v) (acceptedCodesStr v) (acceptedCodesEnvName v) (verbose v)
    (insecureSkipVerify v) (help v) (timeoutSeconds v) x (bodyContains v)
    (bodyContainsEnvName v).
Definition set_bodyContains x v :=
  mkVars (url v) (urlEnvName v) (acceptedCodesStr v) (acceptedCodesEnvName v) (verbose v)
    (insecureSkipVerify v) (help v) (timeoutSeconds v) (httpMethod v) x
    (bodyContainsEnvName v).
Definition set_bodyContainsEnvName x v :=
  mkVars (url v) (urlEnvName v) (acceptedCodesStr v) (acceptedCodesEnvName v) (verbose v)
    (insecureSkipVerify v) (help v) (timeoutSeconds v) (httpMethod v) (bodyContains v)
    x.

(** ** The argument loop *)

(** The cases of [switch arg]. *)
Inductive Option_ :=
| OptUrl | OptUrlEnvName | OptAcceptedCodes | OptAcceptedCodesEnvName
| OptVerbose | OptInsecure | OptHelp | OptTimeout | OptMethod
| OptBodyContains | OptBodyContainsEnvName.

Definition named (arg short long : string) : bool :=
  String.eqb arg short || String.eqb arg long.

Definition switchArg (arg : string) : option Option_ :=
  if named arg "-u" "--url" then Some OptUrl
  else if named arg "-U" "--url-env-name" then Some OptUrlEnvName
  else if named arg "-c" "--accepted-codes" then Some OptAcceptedCodes
  else if named arg "-C" "--accepted-codes-env-name" then Some OptAcceptedCodesEnvName
  else if named arg "-v" "--verbose" then Some OptVerbose
  else if named arg "-k" "--insecure" then Some OptInsecure
  else if named arg "-h" "--help" then Some OptHelp
  else if named arg "-t" "--timeout" then Some OptTimeout
  else if named arg "-m" "--method" then Some OptMethod
  else if named arg "-b" "--body-contains" then Some OptBodyContains
  else if named arg "-B" "--body-contains-env-name" then Some OptBodyContainsEnvName
  else None.

Definition needsArg {A} (flag : string) : M A :=
  emit (Stdout (MsgNeedsArg flag)) ;;; osExit 1.

(** [for i := 0; i < len(args); i++ { switch args[i] ... }], on the
    arguments from position [i] on.  An option with a value reads
    [args[i+1]] and skips it. *)
Fixpoint parseArgs (args : list string) (v : Vars) : M Vars :=
  match args with
  | [] => ret v
  | arg :: rest =>
      match switchArg arg with
      | Some OptUrl =>
          match rest with
          | x :: rest' => parseArgs rest' (set_url x v)
          | [] => needsArg "-u/--url"
          end
      | Some OptUrlEnvName =>
          match rest with
          | x :: rest' => parseArgs rest' (set_urlEnvName x v)
          | [] => needsArg "-U/--url-env-name"
          end
      | Some OptAcceptedCodes =>
          match rest with
          | x :: rest' => parseArgs rest' (set_acceptedCodesStr x v)
          | [] => needsArg "-c/--accepted-codes"
          end
      | Some OptAcceptedCodesEnvName =>
          match rest with
          | x :: rest' => parseArgs rest' (set_acceptedCodesEnvName x v)
          | [] => needsArg "-C/--accepted-codes-env-name"
          end
      | Some OptVerbose => parseArgs rest (set_verbose true v)
      | Some OptInsecure => parseArgs rest (set_insecureSkipVerify true v)
      | Some OptHelp => parseArgs rest (set_help true v)
      | Some OptTimeout =>
          match rest with
          | x :: rest' =>
              match Strconv.Atoi x with
              | None => emit (Stderr (MsgTimeoutNotInt x)) ;;; osExit 1
              | Some t => parseArgs rest' (set_timeoutSeconds t v)
              end
          | [] => needsArg "-t/--timeout"
          end
      | Some OptMethod =>
          match rest with
          | x :: rest' =>
              let method := GoString.ToUpper x in
              if String.eqb method "GET" || String.eqb method "HEAD"
              then parseArgs rest' (set_httpMethod method v)
              else emit (Stderr (MsgBadMethod x)) ;;; osExit 1
          | [] => needsArg "-m/--method"
          end
      | Some OptBodyContains =>
          match rest with
          | x :: rest' => parseArgs rest' (set_bodyContains x v)
          | [] => needsArg "-b/--body-contains"
          end
      | Some OptBodyContainsEnvName =>
          match rest with
          | x :: rest' => parseArgs rest' (set_bodyContainsEnvName x v)
          | [] => needsArg "-B/--body-contains-env-name"
          end
      | None =>
          emit (Stderr (MsgUnknownOption arg)) ;;; printHelp ;;; osExit 1
      end
  end.

(** ** Resolution through the environment (lines 187-212) *)

Definition nonEmpty (s : string) : bool := negb (GoString.isEmpty s).

Definition resolveUrl (w : World) (v : Vars) : M Vars :=
  if nonEmpty (urlEnvName v) then
    x <- osGetenv w (urlEnvName v) ;;
    when (verbose v) (emit (Stdout (MsgUrlFromEnv (urlEnvName v) x))) ;;;
    ret (set_url x v)
  else ret v.

Definition resolveCodes (w : World) (v : Vars) : M Vars :=
  if nonEmpty (acceptedCodesEnvName v)
     && GoString.isEmpty (bodyContainsEnvName v)
     && GoString.isEmpty (bodyContains v)
  then
    x <- osGetenv w (acceptedCodesEnvName v) ;;
    when (verbose v) (emit (Stdout (MsgCodesFromEnv (acceptedCodesEnvName v) x))) ;;;
    ret (set_acceptedCodesStr x v)
  else ret v.

Definition resolveBody (w : World) (v : Vars) : M Vars :=
  if nonEmpty (bodyContainsEnvName v) then
    x <- osGetenv w (bodyContainsEnvName v) ;;
    when (verbose v) (emit (Stdout (MsgBodyFromEnv (bodyContainsEnvName v) x))) ;;;
    ret (set_bodyContains x v)
  else ret v.

Definition requireUrl (v : Vars) : M unit :=
  if GoString.isEmpty (url v)
  then emit (Stdout MsgUrlMissing) ;;; printHelp ;;; osExit 1
  else ret tt.

(** ** The accepted codes (lines 214-227) *)

(** [for _, codeStr := range acceptedCodes], filling [acceptedCodeMap]. *)
Fixpoint rangeCodes (acceptedCodes : list string) (acceptedCodeMap : gmap Z bool)
  : M (gmap Z bool) :=
  match acceptedCodes with
  | [] => ret acceptedCodeMap
  | codeStr :: rest =>
      match Strconv.Atoi (GoString.TrimSpace codeStr) with
      | None => emit (Stderr (MsgBadCode codeStr)) ;;; osExit 1
      | Some code => rangeCodes rest (<[code := true]> acceptedCodeMap)
      end
  end.

(** [None] is the [nil] map of an empty [acceptedCodesStr]. *)
Definition parseAcceptedCodes (acceptedCodesStr : string) : M (option (gmap Z bool)) :=
  if nonEmpty acceptedCodesStr then
    m <- rangeCodes (GoString.Split acceptedCodesStr) ∅ ;;
    ret (Some m)
  else ret None.

(** [acceptedCodeMap[code]]: [false] for a key that is not in the map. *)
Definition index (acceptedCodeMap : gmap Z bool) (code : Z) : bool :=
  default false (acceptedCodeMap !! code).

(** ** The request (lines 229-258) *)

Definition newClient (v : Vars) : M Client :=
  (if insecureSkipVerify v
   then when (verbose v) (emit (Stdout MsgInsecureWarning))
   else ret tt) ;;;
  ret (mkClient (seconds (timeoutSeconds v)) (insecureSkipVerify v)).

(** [switch httpMethod] has no default: with another method [resp] and [err]
    would both stay nil, and [resp.Body] would panic (exit status 2). *)
Definition doRequest (w : World) (client : Client) (v : Vars) : M Response :=
  reply <-
    (if String.eqb (httpMethod v) "GET" then
       emit (HttpGet client (url v)) ;;; ret (Some (httpGet w client (url v)))
     else if String.eqb (httpMethod v) "HEAD" then
       emit (HttpHead client (url v)) ;;; ret (Some (httpHead w client (url v)))
     else ret None) ;;
  match reply with
  | Some (TransportError err) =>
      when (verbose v) (emit (Stderr (MsgRequestFailed (url v) (httpMethod v) err))) ;;;
      osExit 1
  | Some (Replied resp) => ret resp
  | None => emit NilDereference ;;; osExit 2
  end.

(** ** The verdict (lines 260-306) *)

(** Computes [bodyCheckPassed]. *)
Definition checkBody (v : Vars) (resp : Response) : M bool :=
  if nonEmpty (bodyContains v) && String.eqb (httpMethod v) "GET" then
    emit ReadAll ;;;
    match Body resp with
    | BodyError err =>
        when (verbose v) (emit (Stderr (MsgBodyReadFailed err))) ;;;
        osExit 1
    | BodyBytes body =>
        if negb (GoString.Contains body (bodyContains v)) then
          when (verbose v) (emit (Stderr (MsgBodyLacks (bodyContains v)))) ;;;
          ret false
        else
          when (verbose v) (emit (Stdout (MsgBodyHas (bodyContains v)))) ;;;
          ret true
    end
  else ret true.

Definition verdict (v : Vars) (acceptedCodeMap : option (gmap Z bool))
    (resp : Response) (bodyCheckPassed : bool) : M unit :=
  if GoString.isEmpty (bodyContains v) || bodyCheckPassed then
    match acceptedCodeMap with
    | Some m =>
        if index m (StatusCode resp) then
          when (verbose v)
            (emit (Stdout (MsgAccepted (url v) (httpMethod v) (StatusCode resp)))) ;;;
          osExit 0
        else
          when (verbose v)
            (emit (Stdout (MsgNotAccepted (url v) (httpMethod v) (StatusCode resp)
                             (acceptedCodesStr v)))) ;;;
          osExit 1
    | None =>
        if GoString.isEmpty (bodyContains v) then
          when (verbose v)
            (emit (Stdout (MsgNoCodes (url v) (httpMethod v) (StatusCode resp)))) ;;;
          osExit 0
        else if bodyCheckPassed then osExit 0
        else ret tt
    end
  else osExit 1.

(** ** [main] *)

(** Lines 84-212: from the arguments and the environment to the resolved
    variables. *)
Definition resolveVars (args : list string) (w : World) : M Vars :=
  (if (length args =? 0)%nat then printHelp ;;; osExit 0 else ret tt) ;;;
  v <- parseArgs args declared ;;
  (if help v then printHelp ;;; osExit 0 else ret tt) ;;;
  v <- resolveUrl w v ;;
  v <- resolveCodes w v ;;
  v <- resolveBody w v ;;
  requireUrl v ;;;
  ret v.

(** Lines 84-227: the resolved variables and the accepted-codes map. *)
Definition configure (args : list string) (w : World) : M (Vars * option (gmap Z bool)) :=
  v <- resolveVars args w ;;
  acceptedCodeMap <- parseAcceptedCodes (acceptedCodesStr v) ;;
  ret (v, acceptedCodeMap).

(** Lines 229-306: the request and the verdict. *)
Definition probe (w : World) (v : Vars) (acceptedCodeMap : option (gmap Z bool)) : M unit :=
  client <- newClient v ;;
  resp <- doRequest w client v ;;
  bodyCheckPassed <- checkBody v resp ;;
  verdict v acceptedCodeMap resp bodyCheckPassed.

Definition main (args : list string) (w : World) : M unit :=
  cfg <- configure args w ;;
  probe w (fst cfg) (snd cfg).

(** ** Vocabulary of the statements *)

(** The client that [main] builds from the variables, and the reply of the
    network to the request that [main] sends with them. *)
Definition clientOf (v : Vars) : Client :=
  mkClient (seconds (timeoutSeconds v)) (insecureSkipVerify v).

Definition answer (w : World) (v : Vars) : Reply :=
  if String.eqb (httpMethod v) "GET"
  then httpGet w (clientOf v) (url v)
  else httpHead w (clientOf v) (url v).

(** The code that an element of the comma-separated list stands for. *)
Definition codeOf (codeStr : string) : option Z :=
  Strconv.Atoi (GoString.TrimSpace codeStr).

(** The set of codes that a comma-separated list denotes. *)
Definition acceptedSet (acceptedCodesStr : string) : gset Z :=
  list_to_set (omap codeOf (GoString.Split acceptedCodesStr)).

(** Events that reach outside the process other than through its output
    streams. *)
Definition isRequest (e : Event) : bool :=
  match e with
  | HttpGet _ _ | HttpHead _ _ => true
  | _ => false
  end.

Definition isEffect (e : Event) : bool :=
  match e with
  | Stdout _ | Stderr _ => false
  | _ => true
  end.

Definition requests (t : list Event) : list Event := List.filter isRequest t.
Definition effects (t : list Event) : list Event := List.filter isEffect t.

(** White space as [TrimSpace] sees it: a sequence of encoded white-space
    runes. *)
Inductive WhiteSpace : string -> Prop :=
| ws_empty : WhiteSpace EmptyString
| ws_ascii a s : GoString.asciiSpace a = true -> WhiteSpace s -> WhiteSpace (String a s)
| ws_two a b s : GoString.space2 a b = true -> WhiteSpace s ->
    WhiteSpace (String a (String b s))
| ws_three a b c s : GoString.space3 a b c = true -> WhiteSpace s ->
    WhiteSpace (String a (String b (String c s))).

(** No comma in a string: it is one field of a comma-separated list. *)
Fixpoint commaFree (s : string) : bool :=
  match s with
  | EmptyString => true
  | String c r => negb (GoString.byteIs c 44) && commaFree r
  end.

(** The options that read a value. *)
Definition takesValue (o : Option_) : bool :=
  match o with
  | OptVerbose | OptInsecure | OptHelp => false
  | _ => true
  end.

(** The argument list without its [-v]/[--verbose] options.  The list is
    read as the argument loop reads it: the value of an option is not an
    option, whatever it looks like. *)
Fixpoint dropVerbose (args : list string) : list string :=
  match args with
  | [] => []
  | arg :: rest =>
      match switchArg arg with
      | Some OptVerbose => dropVerbose rest
      | Some o =>
          if takesValue o then
            match rest with
            | x :: rest' => arg :: x :: dropVerbose rest'
            | [] => [arg]
            end
          else arg :: dropVerbose rest
      | None => arg :: dropVerbose rest
      end
  end.

(** A list of whole options: the argument loop reads it to its end. *)
Definition wholeOptions (args : list string) : Prop :=
  exists v, parseArgs args declared = ret v.

(** ** Sample worlds and runs *)

(** A server that answers every request with the given status and body. *)
Definition server (env : string -> string) (code : Z) (body : string) : World :=
  mkWorld env
    (fun _ _ => Replied (mkResponse code (BodyBytes body)))
    (fun _ _ => Replied (mkResponse code (BodyBytes ""))).

Definition unreachable (env : string -> string) : World :=
  mkWorld env (fun _ _ => TransportError "dial") (fun _ _ => TransportError "dial").

Definition noEnv : string -> string := fun _ => "".
Definition setenv (name value : string) (env : string -> string) : string -> string :=
  fun n => if String.eqb n name then value else env n.

(** ** Vocabulary of the proofs *)

(** What one turn of the loop does with [arg] and the arguments after it:
    the variables after the turn and the arguments left. *)
Definition turn (arg : string) (rest : list string) (v : Vars) : M (Vars * list string) :=
  match switchArg arg with
  | Some OptUrl =>
      match rest with x :: r => ret (set_url x v, r) | [] => needsArg "-u/--url" end
  | Some OptUrlEnvName =>
      match rest with
      | x :: r => ret (set_urlEnvName x v, r) | [] => needsArg "-U/--url-env-name"
      end
  | Some OptAcceptedCodes =>
      match rest with
      | x :: r => ret (set_acceptedCodesStr x v, r) | [] => needsArg "-c/--accepted-codes"
      end
  | Some OptAcceptedCodesEnvName =>
      match rest with
      | x :: r => ret (set_acceptedCodesEnvName x v, r)
      | [] => needsArg "-C/--accepted-codes-env-name"
      end
  | Some OptVerbose => ret (set_verbose true v, rest)
  | Some OptInsecure => ret (set_insecureSkipVerify true v, rest)
  | Some OptHelp => ret (set_help true v, rest)
  | Some OptTimeout =>
      match rest with
      | x :: r =>
          match Strconv.Atoi x with
          | None => emit (Stderr (MsgTimeoutNotInt x)) ;;; osExit 1
          | Some t => ret (set_timeoutSeconds t v, r)
          end
      | [] => needsArg "-t/--timeout"
      end
  | Some OptMethod =>
      match rest with
      | x :: r =>
          if String.eqb (GoString.ToUpper x) "GET" || String.eqb (GoString.ToUpper x) "HEAD"
          then ret (set_httpMethod (GoString.ToUpper x) v, r)
          else emit (Stderr (MsgBadMethod x)) ;;; osExit 1
      | [] => needsArg "-m/--method"
      end
  | Some OptBodyContains =>
      match rest with
      | x :: r => ret (set_bodyContains x v, r) | [] => needsArg "-b/--body-contains"
      end
  | Some OptBodyContainsEnvName =>
      match rest with
      | x :: r => ret (set_bodyContainsEnvName x v, r)
      | [] => needsArg "-B/--body-contains-env-name"
      end
  | None => emit (Stderr (MsgUnknownOption arg)) ;;; printHelp ;;; osExit 1
  end.

Definition validMethod (v : Vars) : Prop :=
  httpMethod v = "GET" \/ httpMethod v = "HEAD".

(** The variables after lines 187-206, as a function of the variables after
    the loop and of the environment. *)
Definition resolved (w : World) (v : Vars) : Vars :=
  let v1 := if nonEmpty (urlEnvName v) then set_url (environ w (urlEnvName v)) v else v in
  let v2 :=
    if nonEmpty (acceptedCodesEnvName v1)
       && GoString.isEmpty (bodyContainsEnvName v1)
       && GoString.isEmpty (bodyContains v1)
    then set_acceptedCodesStr (environ w (acceptedCodesEnvName v1)) v1 else v1 in
  if nonEmpty (bodyContainsEnvName v2)
  then set_bodyContains (environ w (bodyContainsEnvName v2)) v2 else v2.

(** Every key of the map is bound to [true]: the map is a set. *)
Definition allTrue (m : gmap Z bool) : Prop :=
  forall k b, m !! k = Some b -> b = true.

(** The exit status that the status-code check gives. *)
Definition codeStatus (codes : option (gmap Z bool)) (code : Z) : Z :=
  match codes with
  | Some m => if index m code then 0 else 1
  | None => 0
  end.

(** The body is read when a substring is configured and the method is GET. *)
Definition readsBody (v : Vars) : bool :=
  nonEmpty (bodyContains v) && String.eqb (httpMethod v) "GET".

(** The request that [main] sends. *)
Definition requestOf (v : Vars) : Event :=
  if String.eqb (httpMethod v) "GET"
  then HttpGet (clientOf v) (url v) else HttpHead (clientOf v) (url v).

(** Events of lines 84-227: output and environment reads. *)
Definition beforeRequest (e : Event) : bool :=
  match e with
  | Stdout _ | Stderr _ | Getenv _ => true
  | _ => false
  end.

Definition isOutput (e : Event) : bool :=
  match e with
  | Stdout _ | Stderr _ => true
  | _ => false
  end.

Definition envRead (flag : bool) (name : string) (msg : Msg) : list Event :=
  Getenv name :: (if flag then [Stdout msg] else []).

(** The environment-read condition of line 194. *)
Definition codesFromEnv (v : Vars) : bool :=
  nonEmpty (acceptedCodesEnvName v)
  && GoString.isEmpty (bodyContainsEnvName v)
  && GoString.isEmpty (bodyContains v).

(** The events of lines 187-206, in order. *)
Definition resolutionTrace (w : World) (v : Vars) : list Event :=
  (if nonEmpty (urlEnvName v)
   then envRead (verbose v) (urlEnvName v)
          (MsgUrlFromEnv (urlEnvName v) (environ w (urlEnvName v)))
   else [])
  ++ (if codesFromEnv v
      then envRead (verbose v) (acceptedCodesEnvName v)
             (MsgCodesFromEnv (acceptedCodesEnvName v) (environ w (acceptedCodesEnvName v)))
      else [])
  ++ (if nonEmpty (bodyContainsEnvName v)
      then envRead (verbose v) (bodyContainsEnvName v)
             (MsgBodyFromEnv (bodyContainsEnvName v) (environ w (bodyContainsEnvName v)))
      else []).

Definition urlRead (v : Vars) : list Event :=
  if nonEmpty (urlEnvName v) then [Getenv (urlEnvName v)] else [].

Definition bodyRead (v : Vars) : list Event :=
  if nonEmpty (bodyContainsEnvName v) then [Getenv (bodyContainsEnvName v)] else [].

(** A byte that is not a continuation byte of UTF-8. *)
Definition startsRune (x : ascii) : bool :=
  (GoString.byteZ x <? 128) || (192 <=? GoString.byteZ x).

(** Two computations that differ in their output only: the same events
    other than output, the same exit status, and related values. *)
Definition sim {A} (R : A -> A -> Prop) (m1 m2 : M A) : Prop :=
  effects (fst m1) = effects (fst m2)
  /\ match snd m1, snd m2 with
     | Exit c1, Exit c2 => c1 = c2
     | Ret a1, Ret a2 => R a1 a2
     | _, _ => False
     end.

(** Variables that differ in [verbose] only. *)
Definition agree (v1 v2 : Vars) : Prop := set_verbose false v1 = set_verbose false v2.

(** ** Vocabulary of the further properties *)



(** The two spellings of an option. *)
Definition spellings (o : Option_) : string * string :=
  match o with
  | OptUrl => ("-u", "--url")
  | OptUrlEnvName => ("-U", "--url-env-name")
  | OptAcceptedCodes => ("-c", "--accepted-codes")
  | OptAcceptedCodesEnvName => ("-C", "--accepted-codes-env-name")
  | OptVerbose => ("-v", "--verbose")
  | OptInsecure => ("-k", "--insecure")
  | OptHelp => ("-h", "--help")
  | OptTimeout => ("-t", "--timeout")
  | OptMethod => ("-m", "--method")
  | OptBodyContains => ("-b", "--body-contains")
  | OptBodyContainsEnvName => ("-B", "--body-contains-env-name")
  end.

(** How the diagnostics of the argument loop name an option. *)
Definition optionLabel (o : Option_) : string :=
  fst (spellings o) +:+ "/" +:+ snd (spellings o).

(** The variable that an option with a value assigns. *)
Definition storedIn (o : Option_) (v : Vars) : string :=
  match o with
  | OptUrl => url v
  | OptUrlEnvName => urlEnvName v
  | OptAcceptedCodes => acceptedCodesStr v
  | OptAcceptedCodesEnvName => acceptedCodesEnvName v
  | OptMethod => httpMethod v
  | OptBodyContains => bodyContains v
  | OptBodyContainsEnvName => bodyContainsEnvName v
  | OptVerbose | OptInsecure | OptHelp | OptTimeout => ""
  end.

(** The options whose value is stored as it is given. *)
Definition storedAsGiven (o : Option_) : bool :=
  match o with
  | OptUrl | OptUrlEnvName | OptAcceptedCodes | OptAcceptedCodesEnvName
  | OptBodyContains | OptBodyContainsEnvName => true
  | OptVerbose | OptInsecure | OptHelp | OptTimeout | OptMethod => false
  end.

(** ** The usage text *)






(** * Checks of the embedding on concrete inputs *)

Section Tests.
Import GoString Strconv.

Example Atoi_200 : Atoi "200" = Some 200.
Proof. reflexivity. Qed.
Example Atoi_neg : Atoi "-7" = Some (-7).
Proof. reflexivity. Qed.
Example Atoi_plus : Atoi "+404" = Some 404.
Proof. reflexivity. Qed.
Example Atoi_abc : Atoi "abc" = None.
Proof. reflexivity. Qed.
Example Atoi_empty : Atoi "" = None.
Proof. reflexivity. Qed.
Example Atoi_sign : Atoi "-" = None.
Proof. reflexivity. Qed.
Example Atoi_inner_space : Atoi " 200" = None.
Proof. reflexivity. Qed.
Example Atoi_max : Atoi "9223372036854775807" = Some maxInt.
Proof. reflexivity. Qed.
Example Atoi_over : Atoi "9223372036854775808" = None.
Proof. reflexivity. Qed.
Example Atoi_min : Atoi "-9223372036854775808" = Some minInt.
Proof. reflexivity. Qed.

Example Split_two : Split "200,404" = ["200"; "404"].
Proof. reflexivity. Qed.
Example Split_trailing : Split "200," = ["200"; ""].
Proof. reflexivity. Qed.
Example Split_none : Split "200" = ["200"].
Proof. reflexivity. Qed.
Example Join_two : Join ["200"; "404"] = "200,404".
Proof. reflexivity. Qed.

Example TrimSpace_both : TrimSpace "  200	" = "200".
Proof. reflexivity. Qed.
Example TrimSpace_inner : TrimSpace " 2 0 " = "2 0".
Proof. reflexivity. Qed.
Example TrimSpace_all : TrimSpace "   " = "".
Proof. reflexivity. Qed.

Example ToUpper_head : ToUpper "hEad" = "HEAD".
Proof. reflexivity. Qed.
Example Contains_ok : Contains "status: OK" "OK" = true.
Proof. reflexivity. Qed.
Example Contains_no : Contains "ERROR" "OK" = false.
Proof. reflexivity. Qed.
Example Contains_empty : Contains "" "" = true.
Proof. reflexivity. Qed.
End Tests.

Example run_plain_200 :
  main ["-u"; "http://x"] (server noEnv 200 "OK")
  = ([HttpGet (mkClient 5000000000 false) "http://x"], Exit 0).
Proof. reflexivity. Qed.

Example run_codes_404 :
  status (main ["-u"; "http://x"; "-c"; "200, 204"] (server noEnv 404 "OK")) = 1.
Proof. vm_compute. reflexivity. Qed.

Example run_codes_204 :
  status (main ["-u"; "http://x"; "-c"; "200, 204"] (server noEnv 204 "OK")) = 0.
Proof. vm_compute. reflexivity. Qed.

Example run_veto :
  main ["-u"; "http://x"; "-c"; "200"; "-b"; "OK"; "-v"] (server noEnv 200 "ERROR")
  = ([HttpGet (mkClient 5000000000 false) "http://x"; ReadAll; Stderr (MsgBodyLacks "OK")], Exit 1).
Proof. vm_compute. reflexivity. Qed.

Example run_env :
  trace (main ["-U"; "URL"; "-C"; "CODES"]
           (server (setenv "URL" "http://y" (setenv "CODES" "200" noEnv)) 200 ""))
  = [Getenv "URL"; Getenv "CODES"; HttpGet (mkClient 5000000000 false) "http://y"].
Proof. vm_compute. reflexivity. Qed.

Example run_unknown :
  main ["-z"] (server noEnv 200 "")
  = ([Stderr (MsgUnknownOption "-z"); Stdout MsgUsage], Exit 1).
Proof. reflexivity. Qed.

Example run_head :
  main ["-u"; "http://x"; "-m"; "head"; "-t"; "10"; "-k"] (server noEnv 200 "")
  = ([HttpHead (mkClient 10000000000 true) "http://x"], Exit 0).
Proof. reflexivity. Qed.

Example run_down :
  main ["-u"; "http://x"] (unreachable noEnv) = ([HttpGet (mkClient 5000000000 false) "http://x"], Exit 1).
Proof. reflexivity. Qed.

(** * Properties *)

(** ** The monad *)

Lemma bind_ret {A B} (a : A) (f : A -> M B) : bind (ret a) f = f a.
Proof. unfold bind, ret. destruct (f a); reflexivity. Qed.

Lemma bind_exit {A B} (t : list Event) (c : Z) (f : A -> M B) :
  bind (t, Exit c) f = (t, Exit c).
Proof. reflexivity. Qed.

Lemma bind_value {A B} (t : list Event) (a : A) (f : A -> M B) :
  bind (t, Ret a) f = (t ++ fst (f a), snd (f a)).
Proof. unfold bind. destruct (f a); reflexivity. Qed.

Lemma bind_returns {A B} (m : M A) (f : A -> M B) t b :
  bind m f = (t, Ret b) ->
  exists t1 a t2, m = (t1, Ret a) /\ f a = (t2, Ret b) /\ t = t1 ++ t2.
Proof.
  destruct m as [t1 [c|a]]; simpl; [discriminate|].
  destruct (f a) as [t2 r] eqn:E. intros [= <- ->]. eauto 6.
Qed.

Lemma ret_inj {A} (a b : A) : @ret A a = ret b -> a = b.
Proof. intros [= ->]. reflexivity. Qed.

Lemma forallb_bind {A B} (p : Event -> bool) (m : M A) (f : A -> M B) :
  forallb p (trace m) = true ->
  (forall a, forallb p (trace (f a)) = true) ->
  forallb p (trace (bind m f)) = true.
Proof.
  destruct m as [t [c|a]]; simpl; [tauto|]. intros Ht Hf.
  specialize (Hf a). destruct (f a) as [t' r]. simpl in *.
  rewrite forallb_app, Ht, Hf. reflexivity.
Qed.

(** ** Strings *)

Lemma nonEmpty_true s : nonEmpty s = true <-> s <> EmptyString.
Proof. unfold nonEmpty. destruct s; simpl; split; congruence. Qed.

Lemma nonEmpty_false s : nonEmpty s = false <-> s = EmptyString.
Proof. unfold nonEmpty. destruct s; simpl; split; congruence. Qed.

Lemma append_cons a s t : String a s +:+ t = String a (s +:+ t).
Proof. reflexivity. Qed.

Lemma append_empty t : "" +:+ t = t.
Proof. reflexivity. Qed.

Lemma append_empty_r s : s +:+ "" = s.
Proof. induction s as [|a s IH]; [reflexivity|]. rewrite append_cons, IH. reflexivity. Qed.

Lemma append_assoc s t u : (s +:+ t) +:+ u = s +:+ (t +:+ u).
Proof. induction s as [|a s IH]; [reflexivity|]. rewrite !append_cons, IH. reflexivity. Qed.

(** ** Comma-separated lists *)

Lemma splitComma_last e : commaFree e = true -> GoString.splitComma e = (e, []).
Proof.
  induction e as [|c e IH]; simpl; [reflexivity|].
  intros [Hc He]%andb_true_iff. rewrite (IH He).
  destruct (GoString.byteIs c 44); [discriminate|reflexivity].
Qed.

Lemma splitComma_field e s :
  commaFree e = true ->
  GoString.splitComma (e +:+ String "," s) = (e, GoString.Split s).
Proof.
  unfold GoString.Split. induction e as [|c e IH].
  - intros _. rewrite append_empty. simpl. destruct (GoString.splitComma s). reflexivity.
  - simpl commaFree. intros [Hc He]%andb_true_iff. rewrite append_cons. simpl.
    rewrite (IH He). destruct (GoString.splitComma s).
    destruct (GoString.byteIs c 44); [discriminate|reflexivity].
Qed.

(** Splitting the joined fields gives the fields back. *)
Lemma Split_Join l :
  l <> [] -> Forall (fun e => commaFree e = true) l -> GoString.Split (GoString.Join l) = l.
Proof.
  induction l as [|e l IH]; [congruence|]. intros _ Hall.
  inversion Hall as [|? ? He Hl]; subst.
  destruct l as [|e' l].
  - simpl. unfold GoString.Split. rewrite (splitComma_last e He). reflexivity.
  - change (GoString.Join (e :: e' :: l)) with (e +:+ String "," (GoString.Join (e' :: l))).
    unfold GoString.Split at 1. rewrite (splitComma_field e _ He).
    rewrite IH; [reflexivity|discriminate|exact Hl].
Qed.

(** ** White space *)

Lemma asciiSpace_bounds a :
  GoString.asciiSpace a = true -> 9 <= GoString.byteZ a <= 32.
Proof.
  unfold GoString.asciiSpace.
  rewrite orb_true_iff, andb_true_iff, !Z.leb_le, Z.eqb_eq. lia.
Qed.

Lemma space2_bounds a b :
  GoString.space2 a b = true ->
  GoString.byteZ a = 194 /\ 128 <= GoString.byteZ b <= 191.
Proof.
  unfold GoString.space2, GoString.byteIs.
  rewrite andb_true_iff, orb_true_iff, !Z.eqb_eq. lia.
Qed.

Lemma space3_bounds a b c :
  GoString.space3 a b c = true ->
  225 <= GoString.byteZ a <= 227
  /\ 128 <= GoString.byteZ b <= 191 /\ 128 <= GoString.byteZ c <= 191.
Proof.
  unfold GoString.space3, GoString.byteIs. cbv zeta.
  rewrite !orb_true_iff, !andb_true_iff, !orb_true_iff, !andb_true_iff,
    !Z.eqb_eq, !Z.leb_le. lia.
Qed.

Lemma startsRune_bounds x :
  startsRune x = true -> GoString.byteZ x < 128 \/ 192 <= GoString.byteZ x.
Proof. unfold startsRune. rewrite orb_true_iff, Z.ltb_lt, Z.leb_le. tauto. Qed.

(** Deciding the white-space tests from bounds on the bytes. *)
Ltac space_false :=
  match goal with
  | |- GoString.asciiSpace ?a = false =>
      destruct (GoString.asciiSpace a) eqn:?E; [apply asciiSpace_bounds in E|reflexivity]
  | |- GoString.space2 ?a ?b = false =>
      destruct (GoString.space2 a b) eqn:?E; [apply space2_bounds in E|reflexivity]
  | |- GoString.space3 ?a ?b ?c = false =>
      destruct (GoString.space3 a b c) eqn:?E; [apply space3_bounds in E|reflexivity]
  end;
  repeat match goal with
         | H : GoString.asciiSpace _ = true |- _ => apply asciiSpace_bounds in H
         | H : GoString.space2 _ _ = true |- _ => apply space2_bounds in H
         | H : GoString.space3 _ _ _ = true |- _ => apply space3_bounds in H
         | H : startsRune _ = true |- _ => apply startsRune_bounds in H
         end;
  lia.

(** Leading white space is dropped. *)
Lemma dropSpace_leading p s :
  WhiteSpace p -> GoString.dropSpace false (p +:+ s) = GoString.dropSpace false s.
Proof.
  induction 1 as [|a p Ha _ IH|a b p Hab _ IH|a b c p Habc _ IH].
  - reflexivity.
  - rewrite append_cons. simpl. rewrite Ha. exact IH.
  - rewrite !append_cons. simpl.
    assert (GoString.asciiSpace a = false) as -> by space_false.
    rewrite Hab. exact IH.
  - rewrite !append_cons. simpl.
    assert (GoString.asciiSpace a = false) as -> by space_false.
    assert (GoString.space2 a b = false) as -> by space_false.
    rewrite Habc. exact IH.
Qed.

Lemma revOnto_append s t acc :
  GoString.revOnto (s +:+ t) acc = GoString.revOnto t (GoString.revOnto s acc).
Proof.
  revert acc. induction s as [|a s IH]; intros acc; [reflexivity|].
  rewrite append_cons. simpl. apply IH.
Qed.

Lemma revOnto_acc s acc : GoString.revOnto s acc = GoString.reverse s +:+ acc.
Proof.
  unfold GoString.reverse. revert acc. induction s as [|a s IH]; intros acc; [reflexivity|].
  simpl. rewrite IH, (IH (String a "")), append_assoc. reflexivity.
Qed.

Lemma reverse_append s t :
  GoString.reverse (s +:+ t) = GoString.reverse t +:+ GoString.reverse s.
Proof.
  unfold GoString.reverse at 1. rewrite revOnto_append, revOnto_acc. reflexivity.
Qed.

Lemma reverse_cons a s : GoString.reverse (String a s) = GoString.reverse s +:+ String a "".
Proof. unfold GoString.reverse at 1. simpl. apply revOnto_acc. Qed.

(** Trailing white space, read backwards, is dropped. *)
Lemma dropSpace_trailing p r :
  WhiteSpace p ->
  GoString.dropSpace true (GoString.reverse p +:+ r) = GoString.dropSpace true r.
Proof.
  intros H. revert r.
  induction H as [|a p Ha _ IH|a b p Hab _ IH|a b c p Habc _ IH]; intros r.
  - reflexivity.
  - rewrite reverse_cons, append_assoc, IH. simpl. rewrite Ha. reflexivity.
  - rewrite !reverse_cons, !append_assoc, IH. simpl.
    assert (GoString.asciiSpace b = false) as -> by space_false.
    rewrite Hab. reflexivity.
  - rewrite !reverse_cons, !append_assoc, IH. simpl.
    assert (GoString.asciiSpace c = false) as -> by space_false.
    assert (GoString.space2 b c = false) as -> by space_false.
    rewrite Habc. reflexivity.
Qed.

Lemma TrimRightSpace_trailing s p :
  WhiteSpace p -> GoString.TrimRightSpace (s +:+ p) = GoString.TrimRightSpace s.
Proof.
  intros H. unfold GoString.TrimRightSpace.
  rewrite reverse_append, (dropSpace_trailing p _ H). reflexivity.
Qed.

Lemma WhiteSpace_starts p :
  WhiteSpace p -> p = "" \/ exists x r, p = String x r /\ startsRune x = true.
Proof.
  unfold startsRune.
  destruct 1 as [|a p Ha _|a b p Hab _|a b c p Habc _]; [left; reflexivity|right..];
    eexists _, _; (split; [reflexivity|]).
  - apply asciiSpace_bounds in Ha. apply orb_true_iff. left. apply Z.ltb_lt. lia.
  - apply space2_bounds in Hab. apply orb_true_iff. right. apply Z.leb_le. lia.
  - apply space3_bounds in Habc. apply orb_true_iff. right. apply Z.leb_le. lia.
Qed.

(** White space after a string that does not consist of white space stays:
    no byte at the end of the string joins the bytes that follow it to form
    a white-space rune. *)
Lemma dropSpace_followed p :
  WhiteSpace p ->
  forall n e, (GoString.len e <= n)%nat ->
    GoString.dropSpace false e <> "" ->
    GoString.dropSpace false (e +:+ p) = GoString.dropSpace false e +:+ p.
Proof.
  intros Hp. pose proof (WhiteSpace_starts p Hp) as Hstart.
  induction n as [|n IH]; intros e Hlen Hne.
  { destruct e; [exfalso; apply Hne; reflexivity|simpl in Hlen; lia]. }
  destruct e as [|a r1]; [exfalso; apply Hne; reflexivity|].
  rewrite append_cons. simpl in Hlen, Hne |- *.
  destruct (GoString.asciiSpace a) eqn:Ea; [apply IH; [lia|exact Hne]|].
  destruct r1 as [|b r2].
  { rewrite append_empty.
    destruct Hstart as [->|(x & r & -> & Hx)]; [reflexivity|].
    assert (GoString.space2 a x = false) as -> by space_false.
    destruct r as [|y r]; [reflexivity|].
    assert (GoString.space3 a x y = false) as -> by space_false. reflexivity. }
  rewrite append_cons. simpl in Hlen.
  destruct (GoString.space2 a b) eqn:Eab; [apply IH; [lia|exact Hne]|].
  destruct r2 as [|c r3].
  { rewrite append_empty.
    destruct Hstart as [->|(x & r & -> & Hx)]; [reflexivity|].
    assert (GoString.space3 a b x = false) as -> by space_false. reflexivity. }
  rewrite append_cons. simpl in Hlen.
  destruct (GoString.space3 a b c) eqn:Eabc; [apply IH; [lia|exact Hne]|].
  reflexivity.
Qed.

(** A string of which nothing is left consists of white space. *)
Lemma dropSpace_all n :
  forall e, (GoString.len e <= n)%nat -> GoString.dropSpace false e = "" -> WhiteSpace e.
Proof.
  induction n as [|n IH]; intros e Hlen.
  { destruct e; [constructor|simpl in Hlen; lia]. }
  destruct e as [|a r1]; [constructor|]. simpl in Hlen |- *.
  destruct (GoString.asciiSpace a) eqn:Ea.
  { intros H. apply ws_ascii; [exact Ea|]. apply IH; [lia|exact H]. }
  destruct r1 as [|b r2]; [discriminate|]. simpl in Hlen.
  destruct (GoString.space2 a b) eqn:Eab.
  { intros H. apply ws_two; [exact Eab|]. apply IH; [lia|exact H]. }
  destruct r2 as [|c r3]; [discriminate|]. simpl in Hlen.
  destruct (GoString.space3 a b c) eqn:Eabc; [|discriminate].
  intros H. apply ws_three; [exact Eabc|]. apply IH; [lia|exact H].
Qed.

(** [TrimSpace] removes the white space around a string, whatever the
    string. *)
Lemma TrimSpace_padding p1 e p2 :
  WhiteSpace p1 -> WhiteSpace p2 ->
  GoString.TrimSpace (p1 +:+ e +:+ p2) = GoString.TrimSpace e.
Proof.
  intros H1 H2. unfold GoString.TrimSpace, GoString.TrimLeftSpace.
  rewrite (dropSpace_leading p1 _ H1).
  destruct (GoString.dropSpace false e) as [|a r] eqn:E.
  - pose proof (dropSpace_all _ e (le_n _) E) as He.
    rewrite (dropSpace_leading e p2 He).
    rewrite <- (append_empty_r p2), (dropSpace_leading p2 "" H2). reflexivity.
  - rewrite (dropSpace_followed p2 H2 _ e (le_n _)) by (rewrite E; discriminate).
    rewrite E. apply TrimRightSpace_trailing, H2.
Qed.

Example TrimSpace_unicode :
  GoString.TrimSpace (String "194" (String "160" ("200" +:+ String "226" (String "128" (String "131" "")))))
  = "200".
Proof. reflexivity. Qed.

(** ** The argument loop, one option at a time *)

Lemma parseArgs_turn arg rest v :
  parseArgs (arg :: rest) v
  = bind (turn arg rest v) (fun p => parseArgs (snd p) (fst p)).
Proof.
  unfold turn. simpl.
  destruct (switchArg arg) as [[]|]; try destruct rest as [|x r];
    rewrite ?bind_ret; try reflexivity.
  - destruct (Strconv.Atoi x); rewrite ?bind_ret; reflexivity.
  - destruct (_ || _); rewrite ?bind_ret; reflexivity.
Qed.

(** A turn that does not exit prints nothing and leaves at most the
    arguments it was given. *)
Lemma turn_returns arg rest v t v' rest' :
  turn arg rest v = (t, Ret (v', rest')) ->
  t = [] /\ (length rest' <= length rest)%nat.
Proof.
  unfold turn.
  destruct (switchArg arg) as [[]|]; try destruct rest as [|x r];
    try discriminate; try (intros [= <- <- <-]; simpl; split; [reflexivity|lia]).
  - destruct (Strconv.Atoi x); [|discriminate].
    intros [= <- <- <-]; simpl; split; [reflexivity|lia].
  - destruct (_ || _); [|discriminate].
    intros [= <- <- <-]; simpl; split; [reflexivity|lia].
Qed.

(** Induction on the turns of the argument loop. *)
Lemma loop_ind (P : list string -> Prop) :
  P [] ->
  (forall arg rest,
      (forall v v' rest', turn arg rest v = ret (v', rest') -> P rest') ->
      P (arg :: rest)) ->
  forall args, P args.
Proof.
  intros Hnil Hcons args.
  assert (forall n args, (length args <= n)%nat -> P args) as H.
  { clear args. induction n as [|n IH]; intros [|arg rest] Hlen; simpl in Hlen;
      try exact Hnil; [lia|].
    apply Hcons. intros v v' rest' Ht.
    apply turn_returns in Ht as [_ Hle]. apply IH. lia. }
  apply (H (length args)). lia.
Qed.

Lemma turn_rest arg rest v v' rest' :
  turn arg rest v = ret (v', rest') -> rest' = rest \/ exists x, rest = x :: rest'.
Proof.
  unfold turn, ret.
  destruct (switchArg arg) as [[]|]; try destruct rest as [|x r];
    try discriminate; try (intros [= <- <-]; eauto).
  - destruct (Strconv.Atoi x); [|discriminate]. intros [= <- <-]; eauto.
  - destruct (_ || _); [|discriminate]. intros [= <- <-]; eauto.
Qed.

Lemma turn_app arg rest v v' rest' post :
  turn arg rest v = ret (v', rest') ->
  turn arg (rest ++ post) v = ret (v', rest' ++ post).
Proof.
  unfold turn, ret.
  destruct (switchArg arg) as [[]|]; try destruct rest as [|x r];
    try discriminate; try (intros [= <- <-]; reflexivity).
  - simpl. destruct (Strconv.Atoi x); [|discriminate]. intros [= <- <-]; reflexivity.
  - simpl. destruct (_ || _); [|discriminate]. intros [= <- <-]; reflexivity.
Qed.

(** The loop on a list of whole options followed by more arguments. *)
Lemma parseArgs_app pre :
  forall v v1 post, parseArgs pre v = ret v1 ->
    parseArgs (pre ++ post) v = parseArgs post v1.
Proof.
  induction pre as [|arg rest IH] using loop_ind; intros v v1 post.
  - intros [= <-]. reflexivity.
  - rewrite parseArgs_turn. intros H.
    apply bind_returns in H as (t1 & [v' r'] & t2 & Ht & Hp & Happ).
    pose proof (turn_returns _ _ _ _ _ _ Ht) as [-> _].
    simpl in Happ. subst t2. cbn [fst snd] in Hp.
    change ((arg :: rest) ++ post) with (arg :: (rest ++ post)).
    rewrite parseArgs_turn, (turn_app _ _ _ _ _ post Ht), bind_ret. cbn [fst snd].
    eapply IH; eauto.
Qed.

Lemma turn_exit arg rest v t c : turn arg rest v = (t, Exit c) -> c = 1.
Proof.
  unfold turn.
  destruct (switchArg arg) as [[]|]; try destruct rest as [|x r];
    try discriminate; try (intros [= <- <-]; reflexivity).
  - destruct (Strconv.Atoi x); [discriminate|]. intros [= <- <-]; reflexivity.
  - destruct (_ || _); [discriminate|]. intros [= <- <-]; reflexivity.
Qed.

(** The loop exits with status 1 only. *)
Lemma parseArgs_exit args : forall v t c, parseArgs args v = (t, Exit c) -> c = 1.
Proof.
  induction args as [|arg rest IH] using loop_ind; intros v t c; [discriminate|].
  rewrite parseArgs_turn.
  destruct (turn arg rest v) as [t1 [c1|[v1 r1]]] eqn:E.
  - intros [= <- <-]. eapply turn_exit; eauto.
  - pose proof (turn_returns _ _ _ _ _ _ E) as [-> _].
    rewrite bind_value. cbn [fst snd].
    destruct (parseArgs r1 v1) as [t2 [c2|?]] eqn:E2; [|discriminate].
    intros [= _ <-]. eapply IH; eauto.
Qed.

Lemma turn_output arg rest v : forallb isOutput (trace (turn arg rest v)) = true.
Proof.
  unfold turn.
  destruct (switchArg arg) as [[]|]; try destruct rest as [|x r]; try reflexivity.
  - destruct (Strconv.Atoi x); reflexivity.
  - destruct (_ || _); reflexivity.
Qed.

Lemma parseArgs_output args : forall v, forallb isOutput (trace (parseArgs args v)) = true.
Proof.
  induction args as [|arg rest IH] using loop_ind; intros v; [reflexivity|].
  rewrite parseArgs_turn.
  pose proof (turn_output arg rest v) as Ht.
  destruct (turn arg rest v) as [t [c|[v1 r1]]] eqn:E; [exact Ht|].
  pose proof (turn_returns _ _ _ _ _ _ E) as [-> _].
  rewrite bind_value. simpl. eapply IH. exact E.
Qed.

Lemma turn_validMethod arg rest v v' rest' :
  turn arg rest v = ret (v', rest') -> validMethod v -> validMethod v'.
Proof.
  unfold turn, ret, validMethod.
  destruct (switchArg arg) as [[]|]; try destruct rest as [|x r];
    try discriminate; try (intros [= <- <-]; simpl; tauto).
  - destruct (Strconv.Atoi x); [|discriminate]. intros [= <- <-]; simpl; tauto.
  - destruct (_ || _) eqn:E; [|discriminate]. intros [= <- <-] _; simpl.
    apply orb_true_iff in E as [E|E]; apply String.eqb_eq in E; tauto.
Qed.

Lemma parseArgs_returns args :
  forall v t v', parseArgs args v = (t, Ret v') ->
    t = [] /\ (validMethod v -> validMethod v').
Proof.
  induction args as [|arg rest IH] using loop_ind; intros v t v'.
  - intros [= <- <-]. tauto.
  - rewrite parseArgs_turn. intros H.
    apply bind_returns in H as (t1 & [v1 r1] & t2 & Ht & Hp & ->).
    pose proof (turn_returns _ _ _ _ _ _ Ht) as [-> _].
    simpl in Hp. apply (IH v v1 r1 Ht) in Hp as [-> Hm]. split; [reflexivity|].
    intros Hv. apply Hm. eapply turn_validMethod; eauto.
Qed.

Lemma declared_validMethod : validMethod declared.
Proof. left; reflexivity. Qed.

Lemma turn_help arg rest v v' rest' :
  turn arg rest v = ret (v', rest') -> help v = true -> help v' = true.
Proof.
  unfold turn, ret.
  destruct (switchArg arg) as [[]|]; try destruct rest as [|x r];
    try discriminate; try (intros [= <- <-]; simpl; tauto).
  - destruct (Strconv.Atoi x); [|discriminate]. intros [= <- <-]; simpl; tauto.
  - destruct (_ || _); [|discriminate]. intros [= <- <-]; simpl; tauto.
Qed.

(** Once set, [help] stays set. *)
Lemma parseArgs_help args :
  forall v v', parseArgs args v = ret v' -> help v = true -> help v' = true.
Proof.
  induction args as [|arg rest IH] using loop_ind; intros v v'.
  - intros [= <-]. tauto.
  - rewrite parseArgs_turn. intros H.
    apply bind_returns in H as (t1 & [v1 r1] & t2 & Ht & Hp & Happ).
    pose proof (turn_returns _ _ _ _ _ _ Ht) as [-> _].
    simpl in Happ. subst t2. intros Hh. eapply IH; eauto.
    eapply turn_help; eauto.
Qed.

Lemma switchArg_help h : h = "-h" \/ h = "--help" -> switchArg h = Some OptHelp.
Proof. intros [->| ->]; reflexivity. Qed.

Lemma turn_timeout arg rest v v' rest' :
  turn arg rest v = ret (v', rest') ->
  switchArg arg <> Some OptTimeout ->
  timeoutSeconds v' = timeoutSeconds v.
Proof.
  unfold turn, ret.
  destruct (switchArg arg) as [[]|]; try destruct rest as [|x r];
    try discriminate; try (intros [= <- <-]; reflexivity); try congruence.
  destruct (_ || _); [|discriminate]. intros [= <- <-]; reflexivity.
Qed.

(** Without a timeout option the timeout keeps its value. *)
Lemma parseArgs_timeout args :
  forall v v', parseArgs args v = ret v' ->
    Forall (fun a => switchArg a <> Some OptTimeout) args ->
    timeoutSeconds v' = timeoutSeconds v.
Proof.
  induction args as [|arg rest IH] using loop_ind; intros v v'.
  - intros [= <-]. reflexivity.
  - rewrite parseArgs_turn. intros H Hall.
    apply bind_returns in H as (t1 & [v1 r1] & t2 & Ht & Hp & Happ).
    pose proof (turn_returns _ _ _ _ _ _ Ht) as [-> _].
    simpl in Happ. subst t2. cbn [fst snd] in Hp.
    inversion Hall as [|? ? Harg Hrest]; subst.
    rewrite (IH v v1 r1 Ht v1 v' Hp), (turn_timeout _ _ _ _ _ Ht Harg); [reflexivity|].
    destruct (turn_rest _ _ _ _ _ Ht) as [->|[x ->]]; [exact Hrest|].
    inversion Hrest; assumption.
Qed.

Lemma switchArg_timeout flag :
  flag = "-t" \/ flag = "--timeout" -> switchArg flag = Some OptTimeout.
Proof. intros [->| ->]; reflexivity. Qed.

(** ** Traces *)

Lemma effects_app t1 t2 : effects (t1 ++ t2) = effects t1 ++ effects t2.
Proof. unfold effects. apply List.filter_app. Qed.

Lemma effects_envRead flag name msg : effects (envRead flag name msg) = [Getenv name].
Proof. destruct flag; reflexivity. Qed.

Lemma requests_app t1 t2 : requests (t1 ++ t2) = requests t1 ++ requests t2.
Proof. unfold requests. apply List.filter_app. Qed.

Lemma isOutput_beforeRequest t :
  forallb isOutput t = true -> forallb beforeRequest t = true.
Proof.
  induction t as [|[] t IH]; simpl; try discriminate; auto.
Qed.

Lemma beforeRequest_no e t :
  forallb beforeRequest t = true -> beforeRequest e = false -> ~ In e t.
Proof.
  intros Ht He Hin. rewrite forallb_forall in Ht. apply Ht in Hin. congruence.
Qed.

Lemma requests_beforeRequest t : forallb beforeRequest t = true -> requests t = [].
Proof.
  induction t as [|e t IH]; [reflexivity|]. simpl.
  intros [He Ht]%andb_true_iff. rewrite (IH Ht). destruct e; try discriminate; reflexivity.
Qed.

(** ** Resolution through the environment *)

Lemma resolveUrl_run w v :
  resolveUrl w v
  = if nonEmpty (urlEnvName v)
    then (envRead (verbose v) (urlEnvName v)
            (MsgUrlFromEnv (urlEnvName v) (environ w (urlEnvName v))),
          Ret (set_url (environ w (urlEnvName v)) v))
    else ([], Ret v).
Proof. unfold resolveUrl, when, envRead. destruct (nonEmpty _), (verbose v); reflexivity. Qed.

Lemma resolveCodes_run w v :
  resolveCodes w v
  = if nonEmpty (acceptedCodesEnvName v)
       && GoString.isEmpty (bodyContainsEnvName v)
       && GoString.isEmpty (bodyContains v)
    then (envRead (verbose v) (acceptedCodesEnvName v)
            (MsgCodesFromEnv (acceptedCodesEnvName v) (environ w (acceptedCodesEnvName v))),
          Ret (set_acceptedCodesStr (environ w (acceptedCodesEnvName v)) v))
    else ([], Ret v).
Proof. unfold resolveCodes, when, envRead. destruct (_ && _), (verbose v); reflexivity. Qed.

Lemma resolveBody_run w v :
  resolveBody w v
  = if nonEmpty (bodyContainsEnvName v)
    then (envRead (verbose v) (bodyContainsEnvName v)
            (MsgBodyFromEnv (bodyContainsEnvName v) (environ w (bodyContainsEnvName v))),
          Ret (set_bodyContains (environ w (bodyContainsEnvName v)) v))
    else ([], Ret v).
Proof. unfold resolveBody, when, envRead. destruct (nonEmpty _), (verbose v); reflexivity. Qed.

Lemma resolution_run w v :
  (v1 <- resolveUrl w v ;; v2 <- resolveCodes w v1 ;; resolveBody w v2)
  = (resolutionTrace w v, Ret (resolved w v)).
Proof.
  unfold resolutionTrace, resolved, codesFromEnv.
  rewrite resolveUrl_run.
  destruct (nonEmpty (urlEnvName v)); rewrite bind_value, resolveCodes_run; cbn [fst snd];
    cbn [set_url acceptedCodesEnvName bodyContainsEnvName bodyContains verbose];
    destruct (_ && _); rewrite bind_value, resolveBody_run; cbn [fst snd];
    cbn [set_url set_acceptedCodesStr acceptedCodesEnvName bodyContainsEnvName
         bodyContains verbose];
    destruct (nonEmpty (bodyContainsEnvName v)); cbn [fst snd];
    rewrite ?app_nil_r; reflexivity.
Qed.

(** The variables that resolution changes, and how. *)
Lemma resolved_fields w v :
  url (resolved w v)
  = (if nonEmpty (urlEnvName v) then environ w (urlEnvName v) else url v)
  /\ acceptedCodesStr (resolved w v)
     = (if codesFromEnv v then environ w (acceptedCodesEnvName v) else acceptedCodesStr v)
  /\ bodyContains (resolved w v)
     = (if nonEmpty (bodyContainsEnvName v)
        then environ w (bodyContainsEnvName v) else bodyContains v).
Proof.
  unfold resolved, codesFromEnv.
  destruct (nonEmpty (urlEnvName v)); simpl;
    destruct (_ && _); simpl;
    destruct (nonEmpty (bodyContainsEnvName v)); simpl; auto.
Qed.

Lemma resolved_httpMethod w v : httpMethod (resolved w v) = httpMethod v.
Proof.
  unfold resolved. repeat (destruct (nonEmpty _); simpl); repeat (destruct (_ && _); simpl);
    reflexivity.
Qed.

(** Lines 84-212 on arguments that the loop reads to their end. *)
Lemma resolveVars_run args w v :
  args <> [] ->
  parseArgs args declared = ret v ->
  resolveVars args w
  = if help v then ([Stdout MsgUsage], Exit 0)
    else if GoString.isEmpty (url (resolved w v))
         then (resolutionTrace w v ++ [Stdout MsgUrlMissing; Stdout MsgUsage], Exit 1)
         else (resolutionTrace w v, Ret (resolved w v)).
Proof.
  intros Hne Hp. unfold resolveVars.
  destruct args as [|a args]; [congruence|].
  change (length (a :: args) =? 0)%nat with false. cbv iota.
  rewrite bind_ret, Hp, bind_ret.
  destruct (help v); [reflexivity|]. rewrite bind_ret.
  pose proof (resolution_run w v) as Hr.
  destruct (resolveUrl w v) as [tu [c|vu]]; [discriminate|].
  rewrite bind_value in Hr |- *.
  destruct (resolveCodes w vu) as [tc [c|vc]]; [discriminate|].
  rewrite bind_value in Hr |- *. cbn [fst snd] in Hr |- *.
  destruct (resolveBody w vc) as [tb [c|vb]]; [discriminate|].
  rewrite bind_value. cbn [fst snd] in Hr |- *.
  injection Hr as Ht ->. unfold requireUrl.
  destruct (GoString.isEmpty (url (resolved w v))).
  - cbn [fst snd bind emit printHelp osExit app]. rewrite <- Ht, <- !app_assoc. reflexivity.
  - rewrite bind_ret. cbn [fst snd ret]. rewrite <- Ht, !app_nil_r. reflexivity.
Qed.

(** What it takes for lines 84-212 to reach line 214. *)
Lemma resolveVars_returns args w t v' :
  resolveVars args w = (t, Ret v') ->
  exists v, args <> [] /\ parseArgs args declared = ret v /\ help v = false
            /\ v' = resolved w v /\ nonEmpty (url v') = true.
Proof.
  intros H. destruct args as [|a r]; [discriminate|].
  assert (a :: r <> []) as Hne by discriminate.
  destruct (parseArgs (a :: r) declared) as [tp [c|v]] eqn:Hp.
  - unfold resolveVars in H.
    change (length (a :: r) =? 0)%nat with false in H. cbv iota in H.
    rewrite bind_ret, Hp in H. discriminate.
  - pose proof (parseArgs_returns _ _ _ _ Hp) as [-> _].
    rewrite (resolveVars_run _ w v Hne Hp) in H. exists v.
    destruct (help v); [discriminate|].
    destruct (GoString.isEmpty (url (resolved w v))) eqn:E; [discriminate|].
    injection H as _ <-. repeat split; auto.
    unfold nonEmpty. rewrite E. reflexivity.
Qed.

Lemma effects_resolutionTrace w v :
  effects (resolutionTrace w v)
  = urlRead v ++ (if codesFromEnv v then [Getenv (acceptedCodesEnvName v)] else [])
    ++ bodyRead v.
Proof.
  unfold resolutionTrace, urlRead, bodyRead. rewrite !effects_app.
  destruct (nonEmpty (urlEnvName v)), (codesFromEnv v), (nonEmpty (bodyContainsEnvName v));
    rewrite ?effects_envRead; reflexivity.
Qed.

Lemma resolveVars_effects args w v :
  args <> [] -> parseArgs args declared = ret v -> help v = false ->
  effects (trace (resolveVars args w)) = effects (resolutionTrace w v).
Proof.
  intros Hne Hp Hh. rewrite (resolveVars_run args w v Hne Hp), Hh.
  destruct (GoString.isEmpty _); cbn [trace fst]; [|reflexivity].
  rewrite effects_app. cbn. apply app_nil_r.
Qed.

Lemma resolveUrl_beforeRequest w v : forallb beforeRequest (trace (resolveUrl w v)) = true.
Proof. unfold resolveUrl, when. destruct (nonEmpty _), (verbose v); reflexivity. Qed.

Lemma resolveCodes_beforeRequest w v :
  forallb beforeRequest (trace (resolveCodes w v)) = true.
Proof. unfold resolveCodes, when. destruct (_ && _), (verbose v); reflexivity. Qed.

Lemma resolveBody_beforeRequest w v : forallb beforeRequest (trace (resolveBody w v)) = true.
Proof. unfold resolveBody, when. destruct (nonEmpty _), (verbose v); reflexivity. Qed.

Lemma requireUrl_beforeRequest v : forallb beforeRequest (trace (requireUrl v)) = true.
Proof. unfold requireUrl. destruct (GoString.isEmpty _); reflexivity. Qed.

Lemma resolveVars_beforeRequest args w :
  forallb beforeRequest (trace (resolveVars args w)) = true.
Proof.
  unfold resolveVars.
  repeat (apply forallb_bind; [|intros ?]);
    auto using resolveUrl_beforeRequest, resolveCodes_beforeRequest,
      resolveBody_beforeRequest, requireUrl_beforeRequest.
  - destruct (length args =? 0)%nat; reflexivity.
  - apply isOutput_beforeRequest, parseArgs_output.
  - destruct (help _); reflexivity.
Qed.

(** ** The accepted-codes map *)

Lemma allTrue_empty : allTrue ∅.
Proof. intros k b. rewrite lookup_empty. discriminate. Qed.

Lemma allTrue_insert k m : allTrue m -> allTrue (<[k := true]> m).
Proof.
  intros H j b. destruct (decide (k = j)) as [->|Hne].
  - rewrite lookup_insert_eq. congruence.
  - rewrite lookup_insert_ne by exact Hne. apply H.
Qed.

Lemma allTrue_dom m1 m2 : allTrue m1 -> allTrue m2 -> dom m1 = dom m2 -> m1 = m2.
Proof.
  intros H1 H2 Hdom. apply map_eq. intros k.
  destruct (m1 !! k) as [b|] eqn:E1.
  - assert (k ∈ dom m2) as [b' E2]%elem_of_dom by (rewrite <- Hdom; apply elem_of_dom; eauto).
    rewrite E2, (H1 _ _ E1), (H2 _ _ E2). reflexivity.
  - symmetry. apply not_elem_of_dom. rewrite <- Hdom. apply not_elem_of_dom, E1.
Qed.

Lemma index_dom m k : allTrue m -> index m k = true <-> k ∈ dom m.
Proof.
  intros H. unfold index. rewrite elem_of_dom.
  destruct (m !! k) as [b|] eqn:E; simpl.
  - rewrite (H _ _ E). split; eauto.
  - split; [discriminate|]. intros [? ?]; discriminate.
Qed.

Lemma rangeCodes_returns l :
  forall m0 t m, rangeCodes l m0 = (t, Ret m) ->
    t = [] /\ Forall (fun e => codeOf e <> None) l
    /\ dom m = dom m0 ∪ list_to_set (omap codeOf l)
    /\ (allTrue m0 -> allTrue m).
Proof.
  induction l as [|e l IH]; intros m0 t m; simpl.
  - intros [= <- <-]. repeat split; auto. set_solver.
  - fold (codeOf e). destruct (codeOf e) as [k|] eqn:E; [|discriminate].
    intros H. apply IH in H as (-> & Hall & Hdom & Htrue).
    split; [reflexivity|]. split; [constructor; [congruence|exact Hall]|].
    split.
    + rewrite Hdom, dom_insert_L. set_solver.
    + intros H0. apply Htrue, allTrue_insert, H0.
Qed.

Lemma rangeCodes_exits l :
  forall m0 t c, rangeCodes l m0 = (t, Exit c) ->
    c = 1 /\ exists e, e ∈ l /\ codeOf e = None /\ t = [Stderr (MsgBadCode e)].
Proof.
  induction l as [|e l IH]; intros m0 t c; simpl; [discriminate|].
  fold (codeOf e). destruct (codeOf e) as [k|] eqn:E.
  - intros H. apply IH in H as (-> & e' & Hin & He & ->).
    split; [reflexivity|]. exists e'. split; [set_solver|]. auto.
  - intros [= <- <-]. split; [reflexivity|]. exists e. split; [set_solver|]. auto.
Qed.

Lemma rangeCodes_total l :
  forall m0, Forall (fun e => codeOf e <> None) l ->
    exists m, rangeCodes l m0 = ret m.
Proof.
  induction l as [|e l IH]; intros m0 H; simpl; [eauto|].
  inversion H as [|? ? He Hl]; subst. fold (codeOf e).
  destruct (codeOf e); [|congruence]. apply IH, Hl.
Qed.

Lemma rangeCodes_output l : forall m, forallb isOutput (trace (rangeCodes l m)) = true.
Proof.
  induction l as [|e l IH]; intros m; simpl; [reflexivity|].
  destruct (Strconv.Atoi _); [apply IH|reflexivity].
Qed.

Lemma parseAcceptedCodes_returns s t codes :
  parseAcceptedCodes s = (t, Ret codes) ->
  t = [] /\
  ((s = EmptyString /\ codes = None)
   \/ (s <> EmptyString /\ exists m, codes = Some m /\ dom m = acceptedSet s /\ allTrue m)).
Proof.
  unfold parseAcceptedCodes. destruct (nonEmpty s) eqn:E.
  - intros H. apply bind_returns in H as (t1 & m & t2 & Hr & [= <- <-] & ->).
    apply rangeCodes_returns in Hr as (-> & _ & Hdom & Htrue).
    split; [reflexivity|]. right. split; [apply nonEmpty_true, E|].
    exists m. split; [reflexivity|]. split; [|apply Htrue, allTrue_empty].
    rewrite Hdom. unfold acceptedSet. set_solver.
  - intros [= <- <-]. split; [reflexivity|]. left.
    split; [apply nonEmpty_false, E|reflexivity].
Qed.

Lemma acceptedSet_elem s k :
  k ∈ acceptedSet s <-> exists e, e ∈ GoString.Split s /\ codeOf e = Some k.
Proof. unfold acceptedSet. rewrite elem_of_list_to_set, list_elem_of_omap. reflexivity. Qed.

(** A list of valid codes, joined, is parsed to the map of its codes. *)
Lemma parseAcceptedCodes_Join l :
  l <> [] ->
  Forall (fun e => commaFree e = true) l ->
  Forall (fun e => codeOf e <> None) l ->
  exists m, parseAcceptedCodes (GoString.Join l) = ret (Some m)
            /\ allTrue m /\ dom m = list_to_set (omap codeOf l).
Proof.
  intros Hne Hcf Hvalid.
  pose proof (Split_Join l Hne Hcf) as Hsplit.
  unfold parseAcceptedCodes.
  destruct (nonEmpty (GoString.Join l)) eqn:E.
  - rewrite Hsplit. destruct (rangeCodes_total l ∅ Hvalid) as [m Hm].
    pose proof (rangeCodes_returns _ _ _ _ Hm) as (_ & _ & Hdom & Htrue).
    exists m. rewrite Hm, bind_ret. split; [reflexivity|].
    split; [apply Htrue, allTrue_empty|]. rewrite Hdom. set_solver.
  - apply nonEmpty_false in E. rewrite E in Hsplit.
    rewrite <- Hsplit in Hvalid. inversion Hvalid as [|? ? He _]; subst.
    exfalso. apply He. reflexivity.
Qed.

(** ** [main] up to the request *)

(** What it takes for lines 84-227 to reach the request. *)
Lemma configure_returns args w t v codes :
  configure args w = (t, Ret (v, codes)) ->
  exists t', resolveVars args w = (t', Ret v)
       /\ parseAcceptedCodes (acceptedCodesStr v) = ret codes
       /\ t = t' /\ validMethod v.
Proof.
  unfold configure. intros H.
  apply bind_returns in H as (t1 & v1 & t2 & Hv & H & ->).
  apply bind_returns in H as (t3 & c & t4 & Hc & [= <- <- <-] & ->).
  pose proof (parseAcceptedCodes_returns _ _ _ Hc) as [-> _].
  exists t1. split; [exact Hv|]. split; [exact Hc|]. split; [apply app_nil_r|].
  apply resolveVars_returns in Hv as (v0 & _ & Hp & _ & -> & _).
  unfold validMethod. rewrite resolved_httpMethod.
  apply parseArgs_returns in Hp as [_ Hm]. apply Hm, declared_validMethod.
Qed.

(** What it takes for lines 84-227 to reach the request, in terms of the
    variables after the argument loop. *)
Lemma configure_parsed args w t v' codes v :
  configure args w = (t, Ret (v', codes)) ->
  parseArgs args declared = ret v ->
  args <> [] /\ help v = false /\ v' = resolved w v /\ t = resolutionTrace w v.
Proof.
  intros Hc Hp.
  apply configure_returns in Hc as (t' & Hv & _ & -> & _).
  pose proof (resolveVars_returns _ _ _ _ Hv) as (v0 & Hne & Hp0 & Hh & -> & Hu).
  rewrite Hp in Hp0. apply ret_inj in Hp0 as <-.
  rewrite (resolveVars_run args w v Hne Hp), Hh in Hv.
  destruct (GoString.isEmpty _); [discriminate|]. injection Hv as <-. auto.
Qed.

(** An empty accepted-codes string leaves the map nil. *)
Lemma configure_no_codes args w t v codes :
  configure args w = (t, Ret (v, codes)) -> acceptedCodesStr v = "" -> codes = None.
Proof.
  intros Hc Hs. apply configure_returns in Hc as (_ & _ & Hp & _ & _).
  apply parseAcceptedCodes_returns in Hp as [_ [[_ ->]|(Hne & _)]]; congruence.
Qed.

Lemma configure_beforeRequest args w :
  forallb beforeRequest (trace (configure args w)) = true.
Proof.
  unfold configure.
  apply forallb_bind; [apply resolveVars_beforeRequest|intros v].
  apply forallb_bind; [|reflexivity].
  unfold parseAcceptedCodes. destruct (nonEmpty _); [|reflexivity].
  apply forallb_bind; [|reflexivity].
  apply isOutput_beforeRequest, rangeCodes_output.
Qed.

Lemma main_configured args w t v codes :
  configure args w = (t, Ret (v, codes)) ->
  main args w = (t ++ trace (probe w v codes), snd (probe w v codes)).
Proof. unfold main. intros ->. rewrite bind_value. reflexivity. Qed.

(** [main] when the argument loop exits. *)
Lemma main_loop_exit args w t c :
  args <> [] -> parseArgs args declared = (t, Exit c) -> main args w = (t, Exit c).
Proof.
  intros Hne Hp. unfold main, configure, resolveVars.
  destruct args as [|a args]; [congruence|].
  change (length (a :: args) =? 0)%nat with false. cbv iota.
  rewrite bind_ret, Hp. reflexivity.
Qed.

(** [main] when the argument loop leaves [help] set. *)
Lemma main_help args w v :
  args <> [] -> parseArgs args declared = ret v -> help v = true ->
  main args w = ([Stdout MsgUsage], Exit 0).
Proof.
  intros Hne Hp Hh. unfold main, configure.
  rewrite (resolveVars_run args w v Hne Hp), Hh. reflexivity.
Qed.

(** ** The request and the verdict *)

Lemma newClient_value v :
  newClient v
  = (if insecureSkipVerify v && verbose v then [Stdout MsgInsecureWarning] else [],
     Ret (clientOf v)).
Proof.
  unfold newClient, when, clientOf.
  destruct (insecureSkipVerify v), (verbose v); reflexivity.
Qed.

Lemma doRequest_value w v :
  validMethod v ->
  doRequest w (clientOf v) v
  = match answer w v with
    | Replied resp => ([requestOf v], Ret resp)
    | TransportError err =>
        (requestOf v
           :: (if verbose v then [Stderr (MsgRequestFailed (url v) (httpMethod v) err)] else []),
         Exit 1)
    end.
Proof.
  unfold doRequest, answer, requestOf, when.
  intros [Hm|Hm]; rewrite Hm; simpl String.eqb; cbv iota.
  - destruct (httpGet w _ _); [reflexivity|]. destruct (verbose v); reflexivity.
  - destruct (httpHead w _ _); [reflexivity|]. destruct (verbose v); reflexivity.
Qed.

Lemma checkBody_value v resp :
  checkBody v resp
  = if readsBody v then
      match Body resp with
      | BodyError err =>
          (ReadAll :: (if verbose v then [Stderr (MsgBodyReadFailed err)] else []), Exit 1)
      | BodyBytes body =>
          if GoString.Contains body (bodyContains v)
          then (ReadAll :: (if verbose v then [Stdout (MsgBodyHas (bodyContains v))] else []),
                Ret true)
          else (ReadAll :: (if verbose v then [Stderr (MsgBodyLacks (bodyContains v))] else []),
                Ret false)
      end
    else ([], Ret true).
Proof.
  unfold checkBody, readsBody, when. destruct (_ && _); [|reflexivity].
  destruct (Body resp) as [body|err].
  - destruct (GoString.Contains body _), (verbose v); reflexivity.
  - destruct (verbose v); reflexivity.
Qed.

Lemma verdict_value v codes resp passed :
  (readsBody v = false -> passed = true) ->
  snd (verdict v codes resp passed)
  = Exit (if GoString.isEmpty (bodyContains v) || passed
          then codeStatus codes (StatusCode resp) else 1)
  /\ ~ In ReadAll (trace (verdict v codes resp passed)).
Proof.
  unfold verdict, codeStatus, when, trace. intros _.
  destruct (GoString.isEmpty (bodyContains v)) eqn:Eb; simpl.
  - destruct codes as [m|]; [destruct (index m _)|]; destruct (verbose v); simpl;
      split; try reflexivity; intuition discriminate.
  - destruct passed; simpl; [|split; [reflexivity|tauto]].
    destruct codes as [m|]; [destruct (index m _)|]; try destruct (verbose v); simpl;
      split; try reflexivity; intuition discriminate.
Qed.

Lemma probe_replied w v codes resp :
  validMethod v -> answer w v = Replied resp ->
  status (probe w v codes)
  = (if readsBody v then
       match Body resp with
       | BodyError _ => 1
       | BodyBytes body =>
           if GoString.Contains body (bodyContains v)
           then codeStatus codes (StatusCode resp) else 1
       end
     else codeStatus codes (StatusCode resp))
  /\ (In ReadAll (trace (probe w v codes)) <-> readsBody v = true).
Proof.
  intros Hm Ha. unfold probe.
  rewrite newClient_value, bind_value, (doRequest_value w v Hm), Ha, bind_value.
  rewrite checkBody_value. unfold status, trace; cbn [fst snd].
  assert (forall (c : bool) e, e <> ReadAll -> ~ In ReadAll (if c then [e] else [])) as Hno.
  { intros [] e He; simpl; intuition congruence. }
  assert (requestOf v <> ReadAll) as Hreq.
  { unfold requestOf. destruct (String.eqb _ _); discriminate. }
  destruct (readsBody v) eqn:Er.
  - assert (GoString.isEmpty (bodyContains v) = false) as Hb.
    { unfold readsBody, nonEmpty in Er. destruct (GoString.isEmpty _); [discriminate|reflexivity]. }
    destruct (Body resp) as [body|err]; [destruct (GoString.Contains body _)|];
      rewrite ?bind_value, ?bind_exit; cbn [fst snd];
      try (destruct (verdict_value v codes resp true) as [-> _]; [reflexivity|]);
      try (destruct (verdict_value v codes resp false) as [-> _];
           [intros ?; congruence|]);
      rewrite ?Hb; simpl; split; try reflexivity;
      (split; [reflexivity|]); intros _; rewrite !in_app_iff; simpl; tauto.
  - rewrite bind_value; cbn [fst snd].
    destruct (verdict_value v codes resp true) as [-> Hv]; [reflexivity|].
    rewrite orb_true_r. split; [reflexivity|]. split; [|discriminate].
    unfold trace in Hv. rewrite !in_app_iff. simpl.
    specialize (Hno (insecureSkipVerify v && verbose v) (Stdout MsgInsecureWarning)).
    intuition (try discriminate; eauto).
Qed.

(** Without criteria every response is accepted. *)
Lemma probe_without_criteria w v resp :
  validMethod v -> bodyContains v = "" -> answer w v = Replied resp ->
  status (probe w v None) = 0.
Proof.
  intros Hv Hb Ha. destruct (probe_replied w v None resp Hv Ha) as [-> _].
  unfold readsBody. rewrite Hb. reflexivity.
Qed.

(** ** Verbose and quiet runs *)

Lemma sim_bind {A B} (R : A -> A -> Prop) (S : B -> B -> Prop) m1 m2 f1 f2 :
  sim R m1 m2 ->
  (forall a1 a2, R a1 a2 -> sim S (f1 a1) (f2 a2)) ->
  sim S (bind m1 f1) (bind m2 f2).
Proof.
  destruct m1 as [t1 [c1|a1]], m2 as [t2 [c2|a2]]; intros [Ht Hr] Hf; simpl in Ht, Hr;
    try contradiction.
  - split; assumption.
  - specialize (Hf a1 a2 Hr). rewrite !bind_value. destruct Hf as [Hft Hfr].
    split; [|exact Hfr]. cbn [fst]. rewrite !effects_app. congruence.
Qed.

Lemma sim_sym {A} (R : A -> A -> Prop) m1 m2 :
  (forall a b, R a b -> R b a) -> sim R m1 m2 -> sim R m2 m1.
Proof.
  intros HR [Ht Hr]. split; [congruence|].
  destruct (snd m1), (snd m2); try contradiction; auto.
Qed.

Lemma sim_trans {A} (R : A -> A -> Prop) m1 m2 m3 :
  (forall a b c, R a b -> R b c -> R a c) -> sim R m1 m2 -> sim R m2 m3 -> sim R m1 m3.
Proof.
  intros HR [Ht Hr] [Ht' Hr']. split; [congruence|].
  destruct (snd m1), (snd m2), (snd m3); try contradiction; try congruence; eauto.
Qed.

Lemma sim_refl {A} (m : M A) : sim eq m m.
Proof. split; [reflexivity|]. destruct (snd m); reflexivity. Qed.

Lemma sim_status m1 m2 :
  sim eq m1 m2 -> status m1 = status m2 /\ effects (trace m1) = effects (trace m2).
Proof.
  intros [Ht Hr]. split; [|exact Ht]. unfold status.
  destruct (snd m1), (snd m2); try contradiction; congruence.
Qed.

Lemma agree_sym v1 v2 : agree v1 v2 -> agree v2 v1.
Proof. unfold agree. congruence. Qed.

Lemma agree_trans v1 v2 v3 : agree v1 v2 -> agree v2 v3 -> agree v1 v3.
Proof. unfold agree. congruence. Qed.

(** Replaces two variables that agree by their fields. *)
Ltac agree_fields H :=
  match type of H with
  | agree ?v1 ?v2 =>
      destruct v1, v2; unfold agree, set_verbose in H; cbn in H;
      injection H as -> -> -> -> -> -> -> -> -> ->
  end.

Ltac sim_done :=
  split; cbn; try reflexivity; try (unfold agree; reflexivity).

Lemma agree_acceptedCodesStr v1 v2 :
  agree v1 v2 -> acceptedCodesStr v1 = acceptedCodesStr v2.
Proof. intros H. agree_fields H. reflexivity. Qed.

Lemma parseArgs_sim n :
  forall args v1 v2, (length args <= n)%nat -> agree v1 v2 ->
    sim agree (parseArgs args v1) (parseArgs (dropVerbose args) v2).
Proof.
  induction n as [|n IH]; intros [|arg rest] v1 v2 Hlen Hv; simpl in Hlen;
    try (split; [reflexivity|exact Hv]); [lia|].
  assert (forall (X : Type) (x : X) (f : X -> Vars -> Vars) rest',
             (length rest' <= n)%nat ->
             (forall u1 u2, agree u1 u2 -> agree (f x u1) (f x u2)) ->
             sim agree (parseArgs rest' (f x v1)) (parseArgs (dropVerbose rest') (f x v2)))
    as Hnext.
  { intros X x f rest' Hl Hf. apply IH; [exact Hl|apply Hf, Hv]. }
  assert (forall (f : Vars -> Vars),
             (forall u1 u2, agree u1 u2 -> agree (f u1) (f u2)) ->
             sim agree (parseArgs rest (f v1)) (parseArgs (dropVerbose rest) (f v2)))
    as Hflag.
  { intros f Hf. apply IH; [lia|apply Hf, Hv]. }
  cbn [parseArgs dropVerbose].
  destruct (switchArg arg) as [o|] eqn:E; [|cbn [parseArgs]; rewrite E; sim_done].
  destruct o; cbn [takesValue];
    try (destruct rest as [|x rest']; [cbn [parseArgs]; rewrite E; sim_done|];
         cbn [parseArgs]; rewrite E; simpl in Hlen).
  - apply (Hnext _ x set_url); [lia|]. intros u1 u2 H. agree_fields H. reflexivity.
  - apply (Hnext _ x set_urlEnvName); [lia|]. intros u1 u2 H. agree_fields H. reflexivity.
  - apply (Hnext _ x set_acceptedCodesStr); [lia|]. intros u1 u2 H. agree_fields H. reflexivity.
  - apply (Hnext _ x set_acceptedCodesEnvName); [lia|].
    intros u1 u2 H. agree_fields H. reflexivity.
  - apply IH; [lia|]. agree_fields Hv. reflexivity.
  - cbn [parseArgs]. rewrite E.
    apply (Hflag (set_insecureSkipVerify true)). intros u1 u2 H. agree_fields H. reflexivity.
  - cbn [parseArgs]. rewrite E.
    apply (Hflag (set_help true)). intros u1 u2 H. agree_fields H. reflexivity.
  - destruct (Strconv.Atoi x) as [t|]; [|sim_done].
    apply (Hnext _ t set_timeoutSeconds); [lia|].
    intros u1 u2 H. agree_fields H. reflexivity.
  - cbv zeta. destruct (_ || _); [|sim_done].
    apply (Hnext _ (GoString.ToUpper x) set_httpMethod); [lia|].
    intros u1 u2 H. agree_fields H. reflexivity.
  - apply (Hnext _ x set_bodyContains); [lia|]. intros u1 u2 H. agree_fields H. reflexivity.
  - apply (Hnext _ x set_bodyContainsEnvName); [lia|].
    intros u1 u2 H. agree_fields H. reflexivity.
Qed.

(** Settles a block of [main] run on two sets of variables that agree. *)
Ltac block_sim H :=
  agree_fields H; cbn;
  repeat match goal with
         | |- context [if ?c then _ else _] => destruct c; cbn
         | |- context [match ?x with _ => _ end] => destruct x; cbn
         end;
  sim_done.

Lemma helpCheck_sim v1 v2 :
  agree v1 v2 ->
  sim eq (if help v1 then printHelp ;;; osExit 0 else ret tt)
         (if help v2 then printHelp ;;; osExit 0 else ret tt).
Proof. intros H. block_sim H. Qed.

Lemma resolveUrl_sim w v1 v2 :
  agree v1 v2 -> sim agree (resolveUrl w v1) (resolveUrl w v2).
Proof. intros H. unfold resolveUrl, when, osGetenv. block_sim H. Qed.

Lemma resolveCodes_sim w v1 v2 :
  agree v1 v2 -> sim agree (resolveCodes w v1) (resolveCodes w v2).
Proof. intros H. unfold resolveCodes, when, osGetenv. block_sim H. Qed.

Lemma resolveBody_sim w v1 v2 :
  agree v1 v2 -> sim agree (resolveBody w v1) (resolveBody w v2).
Proof. intros H. unfold resolveBody, when, osGetenv. block_sim H. Qed.

Lemma requireUrl_sim v1 v2 : agree v1 v2 -> sim eq (requireUrl v1) (requireUrl v2).
Proof. intros H. unfold requireUrl. block_sim H. Qed.

Lemma newClient_sim v1 v2 : agree v1 v2 -> sim eq (newClient v1) (newClient v2).
Proof. intros H. unfold newClient, when. block_sim H. Qed.

Lemma doRequest_sim w c v1 v2 :
  agree v1 v2 -> sim eq (doRequest w c v1) (doRequest w c v2).
Proof.
  intros H. unfold doRequest. eapply sim_bind with (R := eq).
  - agree_fields H. cbn [httpMethod url]. split; [reflexivity|].
    repeat match goal with |- context [if ?c then _ else _] => destruct c end; reflexivity.
  - intros reply ? <-. destruct reply as [[resp|err]|]; try (split; reflexivity).
    agree_fields H. unfold when. cbn [verbose url httpMethod].
    repeat match goal with b : bool |- _ => destruct b end; sim_done.
Qed.

Lemma checkBody_sim v1 v2 resp :
  agree v1 v2 -> sim eq (checkBody v1 resp) (checkBody v2 resp).
Proof.
  intros H. rewrite !checkBody_value. agree_fields H.
  unfold readsBody. cbn [bodyContains httpMethod verbose].
  destruct (_ && _); [|sim_done].
  destruct (Body resp) as [body|err]; [destruct (GoString.Contains body _)|];
    repeat match goal with b : bool |- _ => destruct b end; sim_done.
Qed.

Lemma verdict_sim v1 v2 codes resp passed :
  agree v1 v2 -> sim eq (verdict v1 codes resp passed) (verdict v2 codes resp passed).
Proof.
  intros H. unfold verdict, when. agree_fields H.
  cbn [bodyContains httpMethod verbose url acceptedCodesStr].
  destruct (_ || _); [|sim_done].
  destruct codes as [m|];
    [destruct (index m _)|destruct (GoString.isEmpty _); [|destruct passed]];
    repeat match goal with b : bool |- _ => destruct b end; sim_done.
Qed.

Lemma probe_sim w v1 v2 codes : agree v1 v2 -> sim eq (probe w v1 codes) (probe w v2 codes).
Proof.
  intros H. unfold probe.
  eapply sim_bind; [apply newClient_sim, H|]. intros c ? <-.
  eapply sim_bind; [apply doRequest_sim, H|]. intros resp ? <-.
  eapply sim_bind; [apply checkBody_sim, H|]. intros passed ? <-.
  apply verdict_sim, H.
Qed.

Lemma resolveVars_sim args1 args2 w :
  args1 <> [] -> args2 <> [] -> dropVerbose args1 = dropVerbose args2 ->
  sim agree (resolveVars args1 w) (resolveVars args2 w).
Proof.
  intros H1 H2 Hd. unfold resolveVars.
  destruct args1 as [|a1 r1]; [congruence|]. destruct args2 as [|a2 r2]; [congruence|].
  change (length (a1 :: r1) =? 0)%nat with false.
  change (length (a2 :: r2) =? 0)%nat with false. cbv iota. rewrite !bind_ret.
  eapply sim_bind.
  { eapply sim_trans; [apply agree_trans| |].
    - apply (parseArgs_sim _ (a1 :: r1) declared declared (le_n _)). reflexivity.
    - rewrite Hd. apply sim_sym; [apply agree_sym|].
      apply (parseArgs_sim _ (a2 :: r2) declared declared (le_n _)). reflexivity. }
  intros v1 v2 Hv.
  eapply sim_bind; [apply helpCheck_sim, Hv|]. intros _ _ _.
  eapply sim_bind; [apply resolveUrl_sim, Hv|]. clear v1 v2 Hv. intros v1 v2 Hv.
  eapply sim_bind; [apply resolveCodes_sim, Hv|]. clear v1 v2 Hv. intros v1 v2 Hv.
  eapply sim_bind; [apply resolveBody_sim, Hv|]. clear v1 v2 Hv. intros v1 v2 Hv.
  eapply sim_bind; [apply requireUrl_sim, Hv|]. intros _ _ _.
  split; [reflexivity|exact Hv].
Qed.

(** * The contract of [main] *)

(** ** The verdict on a resolved configuration *)

(** Membership in the accepted codes decides the status-code check. *)
Lemma codeStatus_dom m code :
  allTrue m ->
  (codeStatus (Some m) code = 0 <-> code ∈ dom m)
  /\ (code ∉ dom m -> codeStatus (Some m) code = 1).
Proof.
  intros Htrue. unfold codeStatus. pose proof (index_dom m code Htrue) as Hi.
  destruct (index m code); split.
  - intuition.
  - intros Hn. exfalso. apply Hn, Hi. reflexivity.
  - split; [discriminate|]. intros Hin. apply Hi in Hin. discriminate.
  - reflexivity.
Qed.

Section Configured.

(** A run that reaches the request with the variables [v] and the
    accepted-codes map [codes], and that gets the response [resp]. *)
Variables (args : list string) (w : World) (t : list Event).
Variables (v : Vars) (codes : option (gmap Z bool)) (resp : Response).
Hypothesis reached : configure args w = (t, Ret (v, codes)).
Hypothesis replied : answer w v = Replied resp.

Lemma configured_status :
  status (main args w)
  = if readsBody v then
      match Body resp with
      | BodyError _ => 1
      | BodyBytes body =>
          if GoString.Contains body (bodyContains v)
          then codeStatus codes (StatusCode resp) else 1
      end
    else codeStatus codes (StatusCode resp).
Proof.
  pose proof (configure_returns _ _ _ _ _ reached) as (_ & _ & _ & _ & Hv).
  rewrite (main_configured _ _ _ _ _ reached). unfold status at 1; cbn [snd].
  apply (probe_replied w v codes resp Hv replied).
Qed.

Lemma configured_reads : In ReadAll (trace (main args w)) <-> readsBody v = true.
Proof.
  pose proof (configure_returns _ _ _ _ _ reached) as (_ & _ & _ & _ & Hv).
  destruct (probe_replied w v codes resp Hv replied) as [_ Hr].
  rewrite (main_configured _ _ _ _ _ reached). unfold trace at 1; cbn [fst].
  rewrite in_app_iff, Hr. split; [|tauto]. intros [Hin|H]; [|exact H].
  pose proof (configure_beforeRequest args w) as Hb. rewrite reached in Hb.
  destruct (beforeRequest_no ReadAll t Hb eq_refl Hin).
Qed.

Lemma configured_codes m :
  codes = Some m -> dom m = acceptedSet (acceptedCodesStr v) /\ allTrue m.
Proof.
  intros ->. pose proof (configure_returns _ _ _ _ _ reached) as (_ & _ & Hp & _ & _).
  apply parseAcceptedCodes_returns in Hp as [_ [[_ [=]]|(_ & m' & [= <-] & Hdom & Htrue)]].
  split; assumption.
Qed.

(** C1: with a non-empty body substring and the method GET, a response whose
    body lacks the substring makes the process exit with status 1, whatever
    the accepted codes are, configured or not, and whatever the status code
    of the response is. *)
Theorem body_mismatch_vetoes body :
  bodyContains v <> "" ->
  httpMethod v = "GET" ->
  Body resp = BodyBytes body ->
  GoString.Contains body (bodyContains v) = false ->
  status (main args w) = 1.
Proof.
  intros Hb Hm HB Hn. rewrite configured_status.
  unfold readsBody. rewrite Hm. apply nonEmpty_true in Hb. rewrite Hb. simpl.
  rewrite HB, Hn. reflexivity.
Qed.

(** C2: with an accepted-codes set configured and the body gate passed or
    absent (no substring, the method HEAD, or a body that contains the
    substring), the process exits 0 exactly when the status code of the
    response is in the set parsed from the accepted-codes string, and exits 1
    otherwise; the status code is any integer. *)
Theorem status_code_decides m :
  codes = Some m ->
  (bodyContains v = ""
   \/ httpMethod v = "HEAD"
   \/ exists body, Body resp = BodyBytes body
                   /\ GoString.Contains body (bodyContains v) = true) ->
  dom m = acceptedSet (acceptedCodesStr v)
  /\ (status (main args w) = 0 <-> StatusCode resp ∈ dom m)
  /\ (StatusCode resp ∉ dom m -> status (main args w) = 1).
Proof.
  intros Hm Hgate. destruct (configured_codes m Hm) as [Hdom Htrue].
  split; [exact Hdom|]. rewrite configured_status.
  assert ((if readsBody v
           then match Body resp with
                | BodyBytes body =>
                    if GoString.Contains body (bodyContains v)
                    then codeStatus codes (StatusCode resp) else 1
                | BodyError _ => 1
                end
           else codeStatus codes (StatusCode resp))
          = codeStatus codes (StatusCode resp)) as ->.
  { unfold readsBody. destruct Hgate as [Hb|[Hh|(body & HB & Hin)]].
    - rewrite Hb. reflexivity.
    - rewrite Hh, andb_false_r. reflexivity.
    - rewrite HB, Hin. destruct (_ && _); reflexivity. }
  rewrite Hm. apply codeStatus_dom, Htrue.
Qed.

(** C3: with no accepted codes and no body substring, a request that gets a
    response makes the process exit 0, whatever the status code. *)
Theorem no_criteria_succeeds :
  acceptedCodesStr v = "" ->
  bodyContains v = "" ->
  codes = None /\ status (main args w) = 0.
Proof.
  intros Hs Hb.
  pose proof (configure_no_codes _ _ _ _ _ reached Hs) as Hc. split; [exact Hc|].
  rewrite configured_status. unfold readsBody. rewrite Hb, Hc. reflexivity.
Qed.

(** C9: with a non-empty body substring and the method HEAD, the body of the
    response is not read and the exit status is that of the status-code
    check: 0 or 1 by membership in the accepted codes when they are
    configured, 0 when they are not. *)
Theorem head_skips_body_gate :
  bodyContains v <> "" ->
  httpMethod v = "HEAD" ->
  ~ In ReadAll (trace (main args w))
  /\ (forall m, codes = Some m ->
        (status (main args w) = 0 <-> StatusCode resp ∈ dom m)
        /\ (StatusCode resp ∉ dom m -> status (main args w) = 1))
  /\ (codes = None -> status (main args w) = 0).
Proof.
  intros _ Hm.
  assert (readsBody v = false) as Hrb.
  { unfold readsBody. rewrite Hm, andb_false_r. reflexivity. }
  rewrite configured_reads, configured_status, Hrb. split; [discriminate|]. split.
  - intros m Hc. rewrite Hc. apply codeStatus_dom, (configured_codes m Hc).
  - intros ->. reflexivity.
Qed.

End Configured.

(** A run of C1: status 200 is among the accepted codes, the body is ERROR
    where OK is asked for. *)
Lemma body_mismatch_vetoes_witness :
  status (main ["-u"; "http://x"; "-c"; "200"; "-b"; "OK"] (server noEnv 200 "ERROR")) = 1.
Proof.
  eapply (body_mismatch_vetoes _ _ []
            (mkVars "http://x" "" "200" "" false false false 5 "GET" "OK" "")
            (Some (<[200 := true]> ∅)) (mkResponse 200 (BodyBytes "ERROR"))).
  - vm_compute. reflexivity.
  - reflexivity.
  - discriminate.
  - reflexivity.
  - reflexivity.
  - reflexivity.
Defined.

(** A run of C2: the codes are 200 and 204, the response has status 204. *)
Lemma status_code_decides_witness :
  status (main ["-u"; "http://x"; "-c"; "200, 204"] (server noEnv 204 "")) = 0.
Proof.
  pose proof (status_code_decides
            ["-u"; "http://x"; "-c"; "200, 204"] (server noEnv 204 "") []
            (mkVars "http://x" "" "200, 204" "" false false false 5 "GET" "" "")
            (Some (<[204 := true]> (<[200 := true]> ∅))) (mkResponse 204 (BodyBytes ""))) as H.
  destruct (H ltac:(vm_compute; reflexivity) eq_refl _ eq_refl (or_introl eq_refl))
    as (_ & Hiff & _).
  apply Hiff. rewrite !dom_insert_L. set_solver.
Defined.

(** A run of C3: the server answers 500. *)
Lemma no_criteria_succeeds_witness :
  status (main ["-u"; "http://x"] (server noEnv 500 "Internal Server Error")) = 0.
Proof.
  eapply (no_criteria_succeeds _ _ []
            (mkVars "http://x" "" "" "" false false false 5 "GET" "" "") None
            (mkResponse 500 (BodyBytes "Internal Server Error"))); reflexivity.
Defined.

(** A run of C9: HEAD with a body substring that no body could satisfy and
    the codes 200; the response has status 200. *)
Lemma head_skips_body_gate_witness :
  main ["-u"; "http://x"; "-m"; "HEAD"; "-b"; "OK"; "-c"; "200"] (server noEnv 200 "ERROR")
  = ([HttpHead (mkClient 5000000000 false) "http://x"], Exit 0)
  /\ ~ In ReadAll
       (trace (main ["-u"; "http://x"; "-m"; "HEAD"; "-b"; "OK"; "-c"; "200"]
                 (server noEnv 200 "ERROR"))).
Proof.
  split; [vm_compute; reflexivity|].
  eapply (head_skips_body_gate _ _ []
            (mkVars "http://x" "" "200" "" false false false 5 "HEAD" "OK" "")
            (Some (<[200 := true]> ∅)) (mkResponse 200 (BodyBytes ""))).
  - vm_compute. reflexivity.
  - reflexivity.
  - discriminate.
  - reflexivity.
Defined.

(** ** Where the accepted codes come from *)

(** C4, as the code has it: the variable that [-C] names is read exactly
    when its name is not empty and the values given to [-b] and [-B] are
    empty or were not given.  When it is read its value replaces the value
    of [-c]; when [-C] names no variable or a non-empty [-b] or [-B] value is
    there, it is not read and the accepted codes are the value of [-c]. *)
Theorem codes_environment_gate args w v :
  args <> [] ->
  parseArgs args declared = ret v ->
  help v = false ->
  (acceptedCodesEnvName v <> "" /\ bodyContains v = "" /\ bodyContainsEnvName v = "" ->
     effects (trace (resolveVars args w)) = urlRead v ++ [Getenv (acceptedCodesEnvName v)]
     /\ forall t v', resolveVars args w = (t, Ret v') ->
          acceptedCodesStr v' = environ w (acceptedCodesEnvName v))
  /\ (acceptedCodesEnvName v = "" \/ bodyContains v <> "" \/ bodyContainsEnvName v <> "" ->
        effects (trace (resolveVars args w)) = urlRead v ++ bodyRead v
        /\ forall t v', resolveVars args w = (t, Ret v') ->
             acceptedCodesStr v' = acceptedCodesStr v).
Proof.
  intros Hne Hp Hh.
  rewrite (resolveVars_effects args w v Hne Hp Hh), effects_resolutionTrace.
  assert (forall t v', resolveVars args w = (t, Ret v') ->
            acceptedCodesStr v'
            = if codesFromEnv v then environ w (acceptedCodesEnvName v)
              else acceptedCodesStr v) as Hs.
  { intros t v' Hv. rewrite (resolveVars_run args w v Hne Hp), Hh in Hv.
    destruct (GoString.isEmpty _); [discriminate|]. injection Hv as _ <-.
    apply resolved_fields. }
  split.
  - intros (HC & Hb & HB).
    assert (codesFromEnv v = true) as E.
    { unfold codesFromEnv. apply nonEmpty_true in HC. rewrite HC, Hb, HB. reflexivity. }
    rewrite E in *. unfold bodyRead. rewrite HB. cbn [nonEmpty GoString.isEmpty negb].
    rewrite app_nil_r. split; [reflexivity|exact Hs].
  - intros Hbody.
    assert (codesFromEnv v = false) as E.
    { unfold codesFromEnv.
      destruct Hbody as [H|[H|H]]; [rewrite H; reflexivity|..];
        apply nonEmpty_true in H; unfold nonEmpty in H;
        destruct (GoString.isEmpty _); try discriminate;
        rewrite ?andb_false_r; reflexivity. }
    rewrite E in *. split; [reflexivity|exact Hs].
Qed.

(** The run that the specification gives for C4: the codes are the value
    200 of [-c], and CODE_VAR is not read. *)
Lemma codes_environment_gate_witness :
  effects (trace (resolveVars ["-u"; "X"; "-c"; "200"; "-B"; "BODY_VAR"; "-C"; "CODE_VAR"]
                    (server (setenv "CODE_VAR" "404" (setenv "BODY_VAR" "OK" noEnv)) 200 "OK")))
  = [Getenv "BODY_VAR"]
  /\ forall t v',
       resolveVars ["-u"; "X"; "-c"; "200"; "-B"; "BODY_VAR"; "-C"; "CODE_VAR"]
         (server (setenv "CODE_VAR" "404" (setenv "BODY_VAR" "OK" noEnv)) 200 "OK")
       = (t, Ret v') ->
       acceptedCodesStr v' = "200".
Proof.
  refine (proj2 (codes_environment_gate
            ["-u"; "X"; "-c"; "200"; "-B"; "BODY_VAR"; "-C"; "CODE_VAR"]
            (server (setenv "CODE_VAR" "404" (setenv "BODY_VAR" "OK" noEnv)) 200 "OK")
            (mkVars "X" "" "200" "CODE_VAR" false false false 5 "GET" "" "BODY_VAR")
            _ _ _) _).
  - discriminate.
  - reflexivity.
  - reflexivity.
  - right. right. discriminate.
Defined.

(** C4 as stated fails: [-b] is supplied, with the empty string, and the
    variable that [-C] names is read all the same; its value 404 replaces
    the value 200 of [-c], so that a response with status 200 is refused. *)
Lemma empty_body_flag_keeps_codes_environment :
  main ["-u"; "http://x"; "-c"; "200"; "-C"; "CODE_VAR"; "-b"; ""]
    (server (setenv "CODE_VAR" "404" noEnv) 200 "")
  = ([Getenv "CODE_VAR"; HttpGet (mkClient 5000000000 false) "http://x"], Exit 1).
Proof. vm_compute. reflexivity. Qed.

(** ** Help *)

(** C5, as the code has it: [-h] or [--help] in option position makes the
    process print the usage and exit 0 once the argument loop has read all
    the arguments; an argument that the loop refuses still ends the process
    with status 1.  In both cases the process only writes output: it reads no
    environment variable and sends no request. *)
Theorem help_after_the_loop pre h post w :
  wholeOptions pre ->
  h = "-h" \/ h = "--help" ->
  forallb isOutput (trace (main (pre ++ h :: post) w)) = true
  /\ (wholeOptions (pre ++ h :: post) ->
        main (pre ++ h :: post) w = ([Stdout MsgUsage], Exit 0))
  /\ (~ wholeOptions (pre ++ h :: post) -> status (main (pre ++ h :: post) w) = 1).
Proof.
  intros [v1 Hpre] Hh.
  assert (pre ++ h :: post <> []) as Hne by (destruct pre; discriminate).
  pose proof (parseArgs_app pre declared v1 (h :: post) Hpre) as Happ.
  simpl parseArgs in Happ at 2. rewrite (switchArg_help h Hh) in Happ.
  destruct (parseArgs (pre ++ h :: post) declared) as [t [c|v]] eqn:E.
  - pose proof (parseArgs_exit _ _ _ _ E) as ->.
    rewrite (main_loop_exit _ w _ _ Hne E).
    pose proof (parseArgs_output (pre ++ h :: post) declared) as Ho. rewrite E in Ho.
    split; [exact Ho|]. split; [|reflexivity].
    intros [v Hv]. rewrite Hv in E. discriminate.
  - pose proof (parseArgs_returns _ _ _ _ E) as [-> _].
    assert (help v = true) as Hv.
    { symmetry in Happ. eapply parseArgs_help; [exact Happ|reflexivity]. }
    rewrite (main_help _ w v Hne E Hv).
    split; [reflexivity|]. split; [reflexivity|].
    intros Hn. exfalso. apply Hn. exists v. exact E.
Qed.

(** A run of C5: the options after [-h] are all accepted. *)
Lemma help_after_the_loop_witness :
  main ["-u"; "http://x"; "-h"; "-c"; "abc"] (server noEnv 500 "")
  = ([Stdout MsgUsage], Exit 0).
Proof.
  refine (proj1 (proj2 (help_after_the_loop ["-u"; "http://x"] "-h" ["-c"; "abc"]
                          (server noEnv 500 "") _ _)) _).
  - eexists. reflexivity.
  - left. reflexivity.
  - eexists. reflexivity.
Defined.

(** C5 as stated fails: after [-h], an unknown option ends the process with
    status 1. *)
Lemma help_does_not_override_usage_errors :
  main ["-h"; "-z"] (server noEnv 200 "")
  = ([Stderr (MsgUnknownOption "-z"); Stdout MsgUsage], Exit 1).
Proof. reflexivity. Qed.

(** ** The timeout *)

(** C6, as the code has it: the timeout is an integer number of seconds, 5
    when no timeout option is given.  A value of [-t] or [--timeout] that
    [Atoi] refuses ends the process with status 1 and the diagnostic of line
    136, before any request; a value that [Atoi] accepts becomes the timeout,
    be it positive, zero or negative. *)
Theorem timeout_must_be_an_integer pre flag x post w :
  wholeOptions pre ->
  flag = "-t" \/ flag = "--timeout" ->
  (Strconv.Atoi x = None ->
     main (pre ++ flag :: x :: post) w = ([Stderr (MsgTimeoutNotInt x)], Exit 1))
  /\ (forall n v, Strconv.Atoi x = Some n -> parseArgs pre declared = ret v ->
        parseArgs (pre ++ flag :: x :: post) declared
        = parseArgs post (set_timeoutSeconds n v))
  /\ (forall v, parseArgs pre declared = ret v ->
        Forall (fun a => switchArg a <> Some OptTimeout) pre -> timeoutSeconds v = 5).
Proof.
  intros [v1 Hpre] Hflag.
  assert (pre ++ flag :: x :: post <> []) as Hne by (destruct pre; discriminate).
  pose proof (parseArgs_app pre declared v1 (flag :: x :: post) Hpre) as Happ.
  simpl parseArgs in Happ at 2. rewrite (switchArg_timeout flag Hflag) in Happ.
  split; [|split].
  - intros Hx. rewrite Hx in Happ. apply main_loop_exit; assumption.
  - intros n v Hx Hv. rewrite Hx in Happ. rewrite Hv in Hpre.
    apply ret_inj in Hpre as ->. exact Happ.
  - intros v Hv Hall. apply (parseArgs_timeout pre declared v Hv Hall).
Qed.

(** A run of C6: the value abc of the specification. *)
Lemma timeout_must_be_an_integer_witness :
  main ["-u"; "http://x"; "-t"; "abc"; "-c"; "200"] (server noEnv 200 "")
  = ([Stderr (MsgTimeoutNotInt "abc")], Exit 1).
Proof.
  refine (proj1 (timeout_must_be_an_integer ["-u"; "http://x"] "-t" "abc" ["-c"; "200"]
                   (server noEnv 200 "") _ _) _).
  - eexists. reflexivity.
  - left. reflexivity.
  - reflexivity.
Defined.

(** C6 as stated fails: the values 0 and -5 parse to integers that are not
    positive, and the process sends its request with them and exits 0. *)
Lemma nonpositive_timeout_is_accepted :
  main ["-u"; "http://x"; "-t"; "0"] (server noEnv 200 "")
  = ([HttpGet (mkClient 0 false) "http://x"], Exit 0)
  /\ main ["-u"; "http://x"; "-t"; "-5"] (server noEnv 200 "")
     = ([HttpGet (mkClient (-5000000000) false) "http://x"], Exit 0).
Proof. split; reflexivity. Qed.

(** ** The accepted codes as a set *)

(** C7: the map of accepted codes is a function of the comma-separated
    string alone.  Two lists of valid codes with the same codes, in whatever
    order and however often repeated, give the same map; the map binds
    exactly the codes of the elements, each to [true]; white space around an
    element does not change its code; and an element that is not an integer
    ends the process with status 1 before any request.  The empty string
    gives the nil map; every other string whose elements all are integers
    gives a map, without output, whose keys are the codes of the elements;
    and with that map a response passes the status-code check exactly when
    its status code is the code of an element. *)
Theorem accepted_codes_parsing :
  (forall l1 l2,
      l1 <> [] ->
      Forall (fun e => commaFree e = true) l1 ->
      Forall (fun e => commaFree e = true) l2 ->
      Forall (fun e => codeOf e <> None) l1 ->
      (forall x, x ∈ codeOf <$> l1 <-> x ∈ codeOf <$> l2) ->
      parseAcceptedCodes (GoString.Join l1) = parseAcceptedCodes (GoString.Join l2))
  /\ (forall s t m,
        parseAcceptedCodes s = (t, Ret (Some m)) ->
        t = [] /\ allTrue m
        /\ forall k, k ∈ dom m
                     <-> exists e, e ∈ GoString.Split s
                                   /\ Strconv.Atoi (GoString.TrimSpace e) = Some k)
  /\ (forall p1 e p2,
        WhiteSpace p1 -> WhiteSpace p2 -> codeOf (p1 +:+ e +:+ p2) = codeOf e)
  /\ (forall s e,
        s <> "" -> e ∈ GoString.Split s -> codeOf e = None ->
        exists e', e' ∈ GoString.Split s /\ codeOf e' = None
                   /\ parseAcceptedCodes s = ([Stderr (MsgBadCode e')], Exit 1))
  /\ (forall args w t v e,
        resolveVars args w = (t, Ret v) ->
        acceptedCodesStr v <> "" ->
        e ∈ GoString.Split (acceptedCodesStr v) -> codeOf e = None ->
        status (main args w) = 1 /\ requests (trace (main args w)) = [])
  /\ parseAcceptedCodes "" = ([], Ret None)
  /\ (forall s,
        s <> "" ->
        Forall (fun e => codeOf e <> None) (GoString.Split s) ->
        exists m, parseAcceptedCodes s = ([], Ret (Some m))
                  /\ allTrue m
                  /\ forall k, k ∈ dom m
                               <-> exists e, e ∈ GoString.Split s
                                     /\ Strconv.Atoi (GoString.TrimSpace e) = Some k)
  /\ (forall args w t v resp,
        resolveVars args w = (t, Ret v) ->
        acceptedCodesStr v <> "" ->
        Forall (fun e => codeOf e <> None) (GoString.Split (acceptedCodesStr v)) ->
        answer w v = Replied resp ->
        bodyContains v = "" ->
        (status (main args w) = 0
         <-> exists e, e ∈ GoString.Split (acceptedCodesStr v)
                       /\ Strconv.Atoi (GoString.TrimSpace e) = Some (StatusCode resp))
        /\ (status (main args w) = 0 \/ status (main args w) = 1)).
Proof.
  assert (forall s e,
        s <> "" -> e ∈ GoString.Split s -> codeOf e = None ->
        exists e', e' ∈ GoString.Split s /\ codeOf e' = None
                   /\ parseAcceptedCodes s = ([Stderr (MsgBadCode e')], Exit 1)) as Hfail.
  { intros s e Hs Hin He. unfold parseAcceptedCodes.
    apply nonEmpty_true in Hs. rewrite Hs.
    destruct (rangeCodes (GoString.Split s) ∅) as [t [c|m]] eqn:E.
    - apply rangeCodes_exits in E as (-> & e' & Hin' & He' & ->). eauto.
    - apply rangeCodes_returns in E as (_ & Hall & _).
      rewrite Forall_forall in Hall. exfalso. exact (Hall e Hin He). }
  assert (forall s,
        s <> "" ->
        Forall (fun e => codeOf e <> None) (GoString.Split s) ->
        exists m, parseAcceptedCodes s = ([], Ret (Some m))
                  /\ allTrue m /\ dom m = acceptedSet s) as Hvalid.
  { intros s Hs Hall. unfold parseAcceptedCodes.
    apply nonEmpty_true in Hs. rewrite Hs.
    destruct (rangeCodes_total (GoString.Split s) ∅ Hall) as [m Hm].
    pose proof (rangeCodes_returns _ _ _ _ Hm) as (_ & _ & Hdom & Htrue).
    exists m. rewrite Hm, bind_ret. split; [reflexivity|].
    split; [exact (Htrue allTrue_empty)|].
    rewrite Hdom, dom_empty_L. unfold acceptedSet. set_solver. }
  split; [|split; [|split; [|split; [|split; [|split; [|split]]]]]].
  - intros l1 l2 Hne Hcf1 Hcf2 Hval Hsame.
    assert (l2 <> []) as Hne2.
    { destruct l1 as [|e l1]; [congruence|]. intros ->.
      specialize (Hsame (codeOf e)). set_solver. }
    assert (Forall (fun e => codeOf e <> None) l2) as Hval2.
    { rewrite Forall_forall in Hval |- *. intros e He.
      assert (codeOf e ∈ codeOf <$> l1) as (e1 & -> & He1)%list_elem_of_fmap.
      { apply Hsame, list_elem_of_fmap. eauto. }
      apply Hval, He1. }
    destruct (parseAcceptedCodes_Join l1 Hne Hcf1 Hval) as (m1 & -> & Ht1 & Hd1).
    destruct (parseAcceptedCodes_Join l2 Hne2 Hcf2 Hval2) as (m2 & -> & Ht2 & Hd2).
    do 3 f_equal. apply allTrue_dom; [assumption..|].
    rewrite Hd1, Hd2. apply set_eq. intros k.
    rewrite !elem_of_list_to_set, !list_elem_of_omap.
    specialize (Hsame (Some k)). rewrite !list_elem_of_fmap in Hsame.
    split; intros (e & He & Hk).
    + destruct (proj1 Hsame) as (e' & Hk' & He'); eauto.
    + destruct (proj2 Hsame) as (e' & Hk' & He'); eauto.
  - intros s t m H.
    apply parseAcceptedCodes_returns in H as [-> [[_ [=]]|(_ & m' & [= <-] & Hdom & Htrue)]].
    split; [reflexivity|]. split; [exact Htrue|].
    intros k. rewrite Hdom. apply acceptedSet_elem.
  - intros p1 e p2 H1 H2. unfold codeOf. rewrite TrimSpace_padding by assumption.
    reflexivity.
  - exact Hfail.
  - intros args w t v e Hv Hs Hin He.
    destruct (Hfail _ _ Hs Hin He) as (e' & _ & _ & Hp).
    unfold main, configure. rewrite Hv, bind_value, Hp. cbn [fst snd bind].
    split; [reflexivity|]. cbn [trace fst]. rewrite requests_app.
    pose proof (resolveVars_beforeRequest args w) as Hb. rewrite Hv in Hb.
    rewrite (requests_beforeRequest t Hb). reflexivity.
  - reflexivity.
  - intros s Hs Hall. destruct (Hvalid s Hs Hall) as (m & Hp & Htrue & Hdom).
    exists m. split; [exact Hp|]. split; [exact Htrue|].
    intros k. rewrite Hdom. apply acceptedSet_elem.
  - intros args w t v resp Hv Hs Hall Ha Hb.
    destruct (Hvalid _ Hs Hall) as (m & Hp & Htrue & Hdom).
    assert (configure args w = (t, Ret (v, Some m))) as Hc.
    { unfold configure. rewrite Hv, bind_value, Hp. cbn [bind fst snd ret].
      rewrite !app_nil_r. reflexivity. }
    rewrite (configured_status _ _ _ _ _ _ Hc Ha).
    unfold readsBody. rewrite Hb. cbn [nonEmpty andb].
    destruct (codeStatus_dom m (StatusCode resp) Htrue) as [Hiff Hno].
    split.
    + rewrite Hiff, Hdom. apply acceptedSet_elem.
    + destruct (decide (StatusCode resp ∈ dom m)) as [Hin|Hin].
      * left. apply Hiff, Hin.
      * right. apply Hno, Hin.
Qed.

(** Runs of C7: the example of the specification with repeated and padded
    elements, an element that is not an integer, and a status code that is
    not among the codes of a valid list. *)
Lemma accepted_codes_parsing_witness :
  parseAcceptedCodes "200,404" = parseAcceptedCodes " 404 ,200,200"
  /\ status (main ["-u"; "http://x"; "-c"; "200,4o4"] (server noEnv 200 "")) = 1
  /\ (exists m, parseAcceptedCodes "200,404" = ([], Ret (Some m)))
  /\ status (main ["-u"; "http://x"; "-c"; "200"] (server noEnv 404 "")) <> 0.
Proof.
  destruct accepted_codes_parsing as (Horder & _ & _ & _ & Hexit & _ & Hvalid & Hrun).
  split; [|split; [|split]].
  - apply (Horder ["200"; "404"] [" 404 "; "200"; "200"]).
    + discriminate.
    + repeat constructor.
    + repeat constructor.
    + repeat constructor; discriminate.
    + intros x. change (codeOf <$> ["200"; "404"]) with [Some 200; Some 404].
      change (codeOf <$> [" 404 "; "200"; "200"]) with [Some 404; Some 200; Some 200].
      set_solver.
  - refine (proj1 (Hexit ["-u"; "http://x"; "-c"; "200,4o4"] (server noEnv 200 "") []
                     (mkVars "http://x" "" "200,4o4" "" false false false 5 "GET" "" "")
                     "4o4" _ _ _ _)).
    + reflexivity.
    + discriminate.
    + change (GoString.Split "200,4o4") with ["200"; "4o4"]. set_solver.
    + reflexivity.
  - destruct (Hvalid "200,404") as (m & Hm & _).
    + discriminate.
    + change (GoString.Split "200,404") with ["200"; "404"].
      repeat constructor; discriminate.
    + exists m. exact Hm.
  - intros H0.
    destruct (Hrun ["-u"; "http://x"; "-c"; "200"] (server noEnv 404 "") []
                (mkVars "http://x" "" "200" "" false false false 5 "GET" "" "")
                (mkResponse 404 (BodyBytes ""))) as [Hiff _].
    + reflexivity.
    + discriminate.
    + change (GoString.Split "200") with ["200"]. repeat constructor; discriminate.
    + reflexivity.
    + reflexivity.
    + apply Hiff in H0 as (e & He & Hk).
      change (GoString.Split "200") with ["200"] in He.
      apply list_elem_of_singleton in He. subst e. vm_compute in Hk. discriminate.
Defined.

(** ** Verbose mode *)

(** C8, as the code has it: two non-empty argument lists that are the same
    but for their [-v] and [--verbose] options give the same exit status and
    the same events other than output: environment reads, request and body
    read. *)
Theorem verbose_changes_output_only args1 args2 w :
  args1 <> [] -> args2 <> [] ->
  dropVerbose args1 = dropVerbose args2 ->
  status (main args1 w) = status (main args2 w)
  /\ effects (trace (main args1 w)) = effects (trace (main args2 w)).
Proof.
  intros H1 H2 Hd. apply sim_status. unfold main.
  eapply sim_bind with (R := fun c1 c2 => agree (fst c1) (fst c2) /\ snd c1 = snd c2).
  - unfold configure.
    eapply sim_bind; [apply resolveVars_sim; assumption|]. intros v1 v2 Hv.
    rewrite (agree_acceptedCodesStr v1 v2 Hv).
    eapply sim_bind; [apply sim_refl|]. intros c ? <-.
    split; [reflexivity|]. split; [exact Hv|reflexivity].
  - intros [v1 c1] [v2 c2] [Hv Hc]. cbn [fst snd] in *. subst c2.
    apply probe_sim, Hv.
Qed.

(** A run of C8: the same check, quiet and verbose. *)
Lemma verbose_changes_output_only_witness :
  status (main ["-u"; "http://x"; "-c"; "200"; "-b"; "OK"] (server noEnv 200 "ERROR"))
  = status (main ["-v"; "-u"; "http://x"; "--verbose"; "-c"; "200"; "-b"; "OK"]
              (server noEnv 200 "ERROR"))
  /\ effects (trace (main ["-u"; "http://x"; "-c"; "200"; "-b"; "OK"]
                       (server noEnv 200 "ERROR")))
     = effects (trace (main ["-v"; "-u"; "http://x"; "--verbose"; "-c"; "200"; "-b"; "OK"]
                         (server noEnv 200 "ERROR"))).
Proof.
  apply verbose_changes_output_only.
  - discriminate.
  - discriminate.
  - reflexivity.
Defined.

(** C8 as stated fails: without arguments the process prints the usage and
    exits 0; with [-v] as its only argument it finds no URL and exits 1. *)
Lemma verbose_alone_changes_the_status :
  dropVerbose ["-v"] = []
  /\ main [] (server noEnv 200 "") = ([Stdout MsgUsage], Exit 0)
  /\ main ["-v"] (server noEnv 200 "")
     = ([Stdout MsgUrlMissing; Stdout MsgUsage], Exit 1).
Proof. repeat split. Qed.

(** ** A body variable that is not set *)

(** C10: when [-B] names a variable that is unset or empty, the body
    substring resolves to the empty string, and the variable that [-C] names
    is not used for the codes all the same; with no [-c] value the codes stay
    unconfigured and every response gives exit 0. *)
Theorem unset_body_variable_disables_checks args w v t v' codes resp :
  parseArgs args declared = ret v ->
  bodyContainsEnvName v <> "" ->
  environ w (bodyContainsEnvName v) = "" ->
  acceptedCodesEnvName v <> "" ->
  acceptedCodesStr v = "" ->
  configure args w = (t, Ret (v', codes)) ->
  answer w v' = Replied resp ->
  bodyContains v' = "" /\ acceptedCodesStr v' = "" /\ codes = None
  /\ status (main args w) = 0.
Proof.
  intros Hp HB Henv HC Hc Hcfg Ha.
  pose proof (configure_parsed _ _ _ _ _ _ Hcfg Hp) as (_ & _ & Hv' & _).
  pose proof (resolved_fields w v) as (_ & Hs & Hb). rewrite <- Hv' in Hs, Hb.
  apply nonEmpty_true in HB. rewrite HB, Henv in Hb.
  unfold codesFromEnv, nonEmpty in Hs, HB.
  destruct (GoString.isEmpty (bodyContainsEnvName v)); [discriminate|].
  rewrite andb_false_r in Hs. cbn [andb] in Hs. rewrite Hc in Hs.
  split; [exact Hb|]. split; [exact Hs|].
  pose proof (configure_no_codes _ _ _ _ _ Hcfg Hs) as ->. split; [reflexivity|].
  pose proof (configure_returns _ _ _ _ _ Hcfg) as (_ & _ & _ & _ & Hm).
  rewrite (main_configured _ _ _ _ _ Hcfg). unfold status at 1; cbn [snd].
  exact (probe_without_criteria w v' resp Hm Hb Ha).
Qed.

(** A run of C10: CODES holds 500 only, BODY is not set, the server answers
    200, and the process exits 0 without reading CODES. *)
Lemma unset_body_variable_disables_checks_witness :
  main ["-u"; "http://x"; "-C"; "CODES"; "-B"; "BODY"]
    (server (setenv "CODES" "500" noEnv) 200 "")
  = ([Getenv "BODY"; HttpGet (mkClient 5000000000 false) "http://x"], Exit 0)
  /\ status (main ["-u"; "http://x"; "-C"; "CODES"; "-B"; "BODY"]
               (server (setenv "CODES" "500" noEnv) 200 "")) = 0.
Proof.
  split; [vm_compute; reflexivity|].
  eapply (unset_body_variable_disables_checks _ _
            (mkVars "http://x" "" "" "CODES" false false false 5 "GET" "" "BODY")
            [Getenv "BODY"]
            (mkVars "http://x" "" "" "CODES" false false false 5 "GET" "" "BODY")
            None (mkResponse 200 (BodyBytes ""))).
  - reflexivity.
  - discriminate.
  - reflexivity.
  - discriminate.
  - reflexivity.
  - vm_compute. reflexivity.
  - reflexivity.
Defined.

(** * Further properties of the code *)

(** ** Exit statuses and requests *)

Lemma resolveVars_exit args w t c :
  resolveVars args w = (t, Exit c) -> c = 0 \/ c = 1.
Proof.
  destruct args as [|a r]; [intros [= _ <-]; left; reflexivity|].
  assert (a :: r <> []) as Hne by discriminate.
  destruct (parseArgs (a :: r) declared) as [tp [c'|v]] eqn:Hp.
  - unfold resolveVars.
    change (length (a :: r) =? 0)%nat with false. cbv iota.
    rewrite bind_ret, Hp. intros [= _ <-]. right. eapply parseArgs_exit, Hp.
  - pose proof (parseArgs_returns _ _ _ _ Hp) as [-> _].
    rewrite (resolveVars_run _ w v Hne Hp).
    destruct (help v); [intros [= _ <-]; left; reflexivity|].
    destruct (GoString.isEmpty _); [intros [= _ <-]; right; reflexivity|discriminate].
Qed.

Lemma parseAcceptedCodes_exit s t c : parseAcceptedCodes s = (t, Exit c) -> c = 1.
Proof.
  unfold parseAcceptedCodes. destruct (nonEmpty s); [|discriminate].
  destruct (rangeCodes _ ∅) as [tr [cr|m]] eqn:Hr; [|simpl; discriminate].
  apply rangeCodes_exits in Hr as [-> _]. intros [= _ <-]. reflexivity.
Qed.

Lemma configure_exit args w t c :
  configure args w = (t, Exit c) -> c = 0 \/ c = 1.
Proof.
  unfold configure.
  destruct (resolveVars args w) as [tv [cv|v]] eqn:Hv.
  - intros [= _ <-]. eapply resolveVars_exit, Hv.
  - unfold bind at 1.
    destruct (parseAcceptedCodes _) as [tp [cp|codes]] eqn:Hp; simpl; [|discriminate].
    intros [= _ <-]. right. eapply parseAcceptedCodes_exit, Hp.
Qed.

(** The events of the request and the verdict: the request, then at most
    one body read, and output. *)
Lemma probe_trace w v codes :
  validMethod v ->
  requests (trace (probe w v codes)) = [requestOf v]
  /\ ~ In NilDereference (trace (probe w v codes))
  /\ (status (probe w v codes) = 0 \/ status (probe w v codes) = 1)
  /\ forall err, answer w v = TransportError err ->
       status (probe w v codes) = 1 /\ ~ In ReadAll (trace (probe w v codes)).
Proof.
  intros Hv. unfold probe.
  rewrite newClient_value, bind_value, (doRequest_value w v Hv).
  destruct (answer w v) as [resp|err] eqn:Ea.
  - rewrite bind_value, checkBody_value.
    unfold readsBody, verdict, when, status, trace, requestOf, nonEmpty.
    destruct Hv as [Hm|Hm]; rewrite Hm; cbn [String.eqb Ascii.eqb Bool.eqb andb fst snd];
      destruct (bodyContains v) as [|c s] eqn:Eb; cbn [GoString.isEmpty negb orb andb];
      destruct (insecureSkipVerify v), (verbose v); cbn [andb];
      try destruct (Body resp) as [body|e];
      try destruct (GoString.Contains body _);
      destruct codes as [m|]; try destruct (index m _);
      cbn; intuition (discriminate || auto).
  - unfold status, trace, requestOf.
    destruct Hv as [Hm|Hm]; rewrite Hm; cbn [String.eqb Ascii.eqb Bool.eqb andb fst snd];
      destruct (insecureSkipVerify v), (verbose v);
      cbn; intuition (discriminate || auto).
Qed.

(** X1: every run ends with exit status 0 or 1.  In particular the request
    is never skipped: the method is GET or HEAD when the switch of line 245
    is reached, and [resp] is not nil at line 258. *)
Theorem exit_status_is_0_or_1 args w :
  (status (main args w) = 0 \/ status (main args w) = 1)
  /\ ~ In NilDereference (trace (main args w)).
Proof.
  destruct (configure args w) as [t [c|[v codes]]] eqn:Hc.
  - unfold main. rewrite Hc. cbn [bind status trace fst snd].
    split; [eapply configure_exit, Hc|].
    pose proof (configure_beforeRequest args w) as Hb. rewrite Hc in Hb.
    apply (beforeRequest_no NilDereference _ Hb eq_refl).
  - pose proof (configure_returns _ _ _ _ _ Hc) as (_ & _ & _ & _ & Hv).
    destruct (probe_trace w v codes Hv) as (_ & Hnil & Hst & _).
    rewrite (main_configured _ _ _ _ _ Hc). unfold status, trace in *. cbn [fst snd].
    split; [exact Hst|]. rewrite in_app_iff. intros [Hin|Hin]; [|exact (Hnil Hin)].
    pose proof (configure_beforeRequest args w) as Hb. rewrite Hc in Hb.
    exact (beforeRequest_no NilDereference _ Hb eq_refl Hin).
Qed.

(** X2: [main] calls [client.Get] or [client.Head] once when lines 84-227
    end without an exit: the one that the resolved method selects, with the
    resolved URL, on a client with the resolved timeout and TLS setting.  It
    makes no such call otherwise, and never a second one: there is no retry.
    The exchanges that the library makes within the one call, as when it
    follows a redirect, are the library's own and no events of the trace. *)
Theorem one_client_call_at_most args w :
  requests (trace (main args w))
  = match snd (configure args w) with
    | Ret cfg => [requestOf (fst cfg)]
    | Exit _ => []
    end.
Proof.
  pose proof (configure_beforeRequest args w) as Hb.
  destruct (configure args w) as [t [c|[v codes]]] eqn:Hc; cbn [snd fst trace] in *.
  - unfold main. rewrite Hc. apply requests_beforeRequest, Hb.
  - pose proof (configure_returns _ _ _ _ _ Hc) as (_ & _ & _ & _ & Hv).
    destruct (probe_trace w v codes Hv) as (Hreq & _).
    rewrite (main_configured _ _ _ _ _ Hc). cbn [trace fst].
    rewrite requests_app, (requests_beforeRequest t Hb), Hreq. reflexivity.
Qed.

(** X3: a request that fails in the transport ends the process with status
    1, verbose or not, and no body is read. *)
Theorem transport_error_fails args w t v codes err :
  configure args w = (t, Ret (v, codes)) ->
  answer w v = TransportError err ->
  status (main args w) = 1 /\ ~ In ReadAll (trace (main args w)).
Proof.
  intros Hc Ha.
  pose proof (configure_returns _ _ _ _ _ Hc) as (_ & _ & _ & _ & Hv).
  destruct (probe_trace w v codes Hv) as (_ & _ & _ & Herr).
  destruct (Herr err Ha) as [Hs Hr].
  rewrite (main_configured _ _ _ _ _ Hc). unfold status, trace in *. cbn [fst snd].
  split; [exact Hs|]. rewrite in_app_iff. intros [Hin|Hin]; [|exact (Hr Hin)].
  pose proof (configure_beforeRequest args w) as Hb. rewrite Hc in Hb.
  exact (beforeRequest_no ReadAll _ Hb eq_refl Hin).
Qed.

(** A run of X3: the server cannot be reached. *)
Lemma transport_error_fails_witness :
  status (main ["-u"; "http://x"; "-v"] (unreachable noEnv)) = 1.
Proof.
  refine (proj1 (transport_error_fails _ _ []
            (mkVars "http://x" "" "" "" true false false 5 "GET" "" "") None "dial" _ _));
    reflexivity.
Defined.

(** X4: when the body is to be checked and reading it fails, the process
    exits with status 1, whatever the status code and the accepted codes. *)
Theorem body_read_error_fails args w t v codes resp err :
  configure args w = (t, Ret (v, codes)) ->
  answer w v = Replied resp ->
  bodyContains v <> "" ->
  httpMethod v = "GET" ->
  Body resp = BodyError err ->
  status (main args w) = 1.
Proof.
  intros Hc Ha Hb Hm HB. rewrite (configured_status _ _ _ _ _ _ Hc Ha).
  unfold readsBody. apply nonEmpty_true in Hb. rewrite Hb, Hm, HB. reflexivity.
Qed.

(** A run of X4: the body of a response with an accepted status cannot be
    read. *)
Lemma body_read_error_fails_witness :
  status (main ["-u"; "http://x"; "-b"; "OK"; "-c"; "200"]
            (mkWorld noEnv (fun _ _ => Replied (mkResponse 200 (BodyError "reset")))
               (fun _ _ => TransportError "dial"))) = 1.
Proof.
  eapply (body_read_error_fails _ _ []
            (mkVars "http://x" "" "200" "" false false false 5 "GET" "OK" "")
            (Some (<[200 := true]> ∅)) (mkResponse 200 (BodyError "reset")) "reset").
  - vm_compute. reflexivity.
  - reflexivity.
  - discriminate.
  - reflexivity.
  - reflexivity.
Defined.

(** X5: when [-U] names a variable, the URL is the value of the variable,
    whatever [-u] gave: a variable that is empty or not set ends the process
    with status 1 at line 208, before any request. *)
Theorem url_variable_overrides args w v :
  args <> [] ->
  parseArgs args declared = ret v ->
  help v = false ->
  urlEnvName v <> "" ->
  (environ w (urlEnvName v) = "" ->
     status (main args w) = 1 /\ requests (trace (main args w)) = [])
  /\ (forall t v' codes,
        configure args w = (t, Ret (v', codes)) -> url v' = environ w (urlEnvName v)).
Proof.
  intros Hne Hp Hh HU. apply nonEmpty_true in HU.
  pose proof (resolved_fields w v) as (Hurl & _). rewrite HU in Hurl.
  split.
  - intros Henv. rewrite Henv in Hurl.
    pose proof (resolveVars_run args w v Hne Hp) as Hr. rewrite Hh, Hurl in Hr.
    cbn [GoString.isEmpty] in Hr.
    pose proof (resolveVars_beforeRequest args w) as Hb.
    unfold main, configure. rewrite Hr in *. cbn [bind status trace fst snd] in *.
    split; [reflexivity|apply requests_beforeRequest, Hb].
  - intros t v' codes Hc.
    pose proof (configure_parsed _ _ _ _ _ _ Hc Hp) as (_ & _ & -> & _). exact Hurl.
Qed.

(** A run of X5: [-u] gives a URL, and the variable that [-U] names is not
    set. *)
Lemma url_variable_overrides_witness :
  status (main ["-u"; "http://x"; "-U"; "URL"] (server noEnv 200 "")) = 1
  /\ requests (trace (main ["-u"; "http://x"; "-U"; "URL"] (server noEnv 200 ""))) = [].
Proof.
  refine (proj1 (url_variable_overrides ["-u"; "http://x"; "-U"; "URL"] (server noEnv 200 "")
                   (mkVars "http://x" "URL" "" "" false false false 5 "GET" "" "")
                   _ _ _ _) _).
  - discriminate.
  - reflexivity.
  - reflexivity.
  - discriminate.
  - reflexivity.
Defined.

(** ** Usage errors *)

Lemma switchArg_method flag :
  flag = "-m" \/ flag = "--method" -> switchArg flag = Some OptMethod.
Proof. intros [->| ->]; reflexivity. Qed.

(** X6: the value of [-m] or [--method] is accepted when its upper case is
    GET or HEAD, which then is the method; any other value ends the process
    with status 1 and the diagnostic of line 152, before any request. *)
Theorem method_must_be_get_or_head pre flag x post w :
  wholeOptions pre ->
  flag = "-m" \/ flag = "--method" ->
  (GoString.ToUpper x <> "GET" -> GoString.ToUpper x <> "HEAD" ->
     main (pre ++ flag :: x :: post) w = ([Stderr (MsgBadMethod x)], Exit 1))
  /\ (forall v, parseArgs pre declared = ret v ->
        GoString.ToUpper x = "GET" \/ GoString.ToUpper x = "HEAD" ->
        parseArgs (pre ++ flag :: x :: post) declared
        = parseArgs post (set_httpMethod (GoString.ToUpper x) v)).
Proof.
  intros [v1 Hpre] Hflag.
  assert (pre ++ flag :: x :: post <> []) as Hne by (destruct pre; discriminate).
  pose proof (parseArgs_app pre declared v1 (flag :: x :: post) Hpre) as Happ.
  simpl parseArgs in Happ at 2. rewrite (switchArg_method flag Hflag) in Happ.
  split.
  - intros Hg Hh. apply String.eqb_neq in Hg, Hh. rewrite Hg, Hh in Happ.
    apply main_loop_exit; assumption.
  - intros v Hv Hm. rewrite Hv in Hpre. apply ret_inj in Hpre as ->.
    assert (String.eqb (GoString.ToUpper x) "GET" || String.eqb (GoString.ToUpper x) "HEAD"
            = true) as E.
    { apply orb_true_iff. destruct Hm as [Hm|Hm]; [left|right]; apply String.eqb_eq, Hm. }
    rewrite E in Happ. exact Happ.
Qed.

(** A run of X6: the method POST of the specification. *)
Lemma method_must_be_get_or_head_witness :
  main ["-u"; "http://x"; "-m"; "post"] (server noEnv 200 "")
  = ([Stderr (MsgBadMethod "post")], Exit 1).
Proof.
  refine (proj1 (method_must_be_get_or_head ["-u"; "http://x"] "-m" "post" []
                   (server noEnv 200 "") _ _) _ _).
  - eexists. reflexivity.
  - left. reflexivity.
  - discriminate.
  - discriminate.
Defined.

(** X7: an argument in option position that is not an option ends the
    process with status 1; the diagnostic goes to the error stream and the
    usage to the standard output.  Without arguments the process prints the
    usage and exits 0. *)
Theorem unknown_option_is_fatal pre arg post w :
  wholeOptions pre ->
  switchArg arg = None ->
  main (pre ++ arg :: post) w = ([Stderr (MsgUnknownOption arg); Stdout MsgUsage], Exit 1)
  /\ main [] w = ([Stdout MsgUsage], Exit 0).
Proof.
  intros [v1 Hpre] Harg. split; [|reflexivity].
  apply main_loop_exit; [destruct pre; discriminate|].
  rewrite (parseArgs_app pre declared v1 (arg :: post) Hpre).
  simpl. rewrite Harg. reflexivity.
Qed.

(** A run of X7: the option -z of the specification. *)
Lemma unknown_option_is_fatal_witness :
  main ["-k"; "-z"; "-u"; "http://x"] (server noEnv 200 "")
  = ([Stderr (MsgUnknownOption "-z"); Stdout MsgUsage], Exit 1).
Proof.
  refine (proj1 (unknown_option_is_fatal ["-k"] "-z" ["-u"; "http://x"]
                   (server noEnv 200 "") _ _)).
  - eexists. reflexivity.
  - reflexivity.
Defined.

(** * The decision of [main] as a whole *)

(** ** The exit status of a run that gets a response *)

Lemma validMethod_head v :
  validMethod v -> String.eqb (httpMethod v) "GET" = false -> httpMethod v = "HEAD".
Proof. intros [H|H]; rewrite H; [discriminate|reflexivity]. Qed.

(** X8: the decision table of lines 260-306.  A run that gets a response
    exits 0 exactly when the body gate is absent or passed (no substring, the
    method HEAD, or a body that was read and contains the substring) and the
    status code is accepted (no codes configured, or the code is one of
    them); it exits 1 in every other case. *)
Theorem exit_status_decision_table args w t v codes resp :
  configure args w = (t, Ret (v, codes)) ->
  answer w v = Replied resp ->
  (status (main args w) = 0 <->
     (bodyContains v = "" \/ httpMethod v = "HEAD"
      \/ exists body, Body resp = BodyBytes body
                      /\ GoString.Contains body (bodyContains v) = true)
     /\ (codes = None \/ exists m, codes = Some m /\ StatusCode resp ∈ dom m))
  /\ (status (main args w) = 0 \/ status (main args w) = 1).
Proof.
  intros Hc Ha.
  pose proof (configure_returns _ _ _ _ _ Hc) as (_ & _ & _ & _ & Hv).
  rewrite (configured_status _ _ _ _ _ _ Hc Ha).
  assert (codeStatus codes (StatusCode resp) = 0
          <-> codes = None \/ exists m, codes = Some m /\ StatusCode resp ∈ dom m) as Hcs.
  { destruct codes as [m|].
    - destruct (configured_codes _ _ _ _ _ Hc m eq_refl) as [_ Htrue].
      rewrite (proj1 (codeStatus_dom m (StatusCode resp) Htrue)).
      split; [eauto|]. intros [[=]|(m' & [= <-] & Hin)]. exact Hin.
    - split; [auto|reflexivity]. }
  assert (codeStatus codes (StatusCode resp) = 0 \/ codeStatus codes (StatusCode resp) = 1)
    as Hrange.
  { unfold codeStatus. destruct codes as [m|]; [destruct (index m _)|]; auto. }
  unfold readsBody, nonEmpty.
  destruct (bodyContains v) as [|c s] eqn:Eb; cbn [GoString.isEmpty negb andb].
  { split; [|exact Hrange]. rewrite Hcs. tauto. }
  destruct (String.eqb (httpMethod v) "GET") eqn:Em.
  - apply String.eqb_eq in Em.
    destruct (Body resp) as [body|err] eqn:EB.
    + destruct (GoString.Contains body (String c s)) eqn:Ec.
      * split; [|exact Hrange]. rewrite Hcs. split; [intros H; split; eauto|tauto].
      * split; [|auto]. split; [discriminate|].
        intros [[[=]|[Hh|(b & [= <-] & Hb)]] _]; congruence.
    + split; [|auto]. split; [discriminate|].
      intros [[[=]|[Hh|(b & [=] & _)]] _]. congruence.
  - split; [|exact Hrange]. rewrite Hcs.
    pose proof (validMethod_head v Hv Em). tauto.
Qed.

(** A run of X8: HEAD, a substring and the codes 200 and 301; the response
    has status 301. *)
Lemma exit_status_decision_table_witness :
  status (main ["-u"; "http://x"; "-m"; "head"; "-b"; "OK"; "-c"; "200,301"]
            (server noEnv 301 "")) = 0.
Proof.
  eapply (exit_status_decision_table _ _ []
            (mkVars "http://x" "" "200,301" "" false false false 5 "HEAD" "OK" "")
            (Some (<[301 := true]> (<[200 := true]> ∅))) (mkResponse 301 (BodyBytes ""))).
  - vm_compute. reflexivity.
  - reflexivity.
  - split.
    + right. left. reflexivity.
    + right. eexists. split; [reflexivity|]. rewrite !dom_insert_L. set_solver.
Defined.

(** ** Output *)

Lemma resolved_verbose w v : verbose (resolved w v) = verbose v.
Proof.
  unfold resolved.
  destruct (nonEmpty (urlEnvName v)); simpl;
    destruct (_ && _); simpl;
    destruct (nonEmpty (bodyContainsEnvName v)); simpl; reflexivity.
Qed.

Lemma resolutionTrace_quiet w v :
  verbose v = false -> forallb isEffect (resolutionTrace w v) = true.
Proof.
  intros Hq. unfold resolutionTrace, envRead. rewrite Hq.
  destruct (nonEmpty (urlEnvName v)), (codesFromEnv v), (nonEmpty (bodyContainsEnvName v));
    reflexivity.
Qed.

Lemma probe_quiet w v codes :
  validMethod v -> verbose v = false ->
  forallb isEffect (trace (probe w v codes)) = true.
Proof.
  intros Hv Hq. unfold probe.
  rewrite newClient_value, bind_value, (doRequest_value w v Hv).
  destruct (answer w v) as [resp|err].
  - rewrite bind_value, checkBody_value.
    unfold readsBody, verdict, when, trace, requestOf, nonEmpty. rewrite Hq.
    destruct Hv as [Hm|Hm]; rewrite Hm; cbn [String.eqb Ascii.eqb Bool.eqb andb fst snd];
      destruct (bodyContains v) as [|c s]; cbn [GoString.isEmpty negb orb andb];
      destruct (insecureSkipVerify v); cbn [andb];
      try destruct (Body resp) as [body|e];
      try destruct (GoString.Contains body _);
      destruct codes as [m|]; try destruct (index m _);
      reflexivity.
  - unfold trace, requestOf. rewrite Hq.
    destruct Hv as [Hm|Hm]; rewrite Hm; destruct (insecureSkipVerify v); reflexivity.
Qed.

(** X9: without [-v], a run whose arguments, URL and accepted codes are in
    order writes nothing to the standard streams, whatever the network
    answers and whatever the verdict: its trace holds environment reads, the
    request and the body read only. *)
Theorem quiet_run_is_silent args w t v codes :
  configure args w = (t, Ret (v, codes)) ->
  verbose v = false ->
  forallb isEffect (trace (main args w)) = true
  /\ List.filter isOutput (trace (main args w)) = [].
Proof.
  intros Hc Hq.
  assert (forallb isEffect (trace (main args w)) = true) as H.
  { pose proof (configure_returns _ _ _ _ _ Hc) as (t' & Hr & _ & <- & Hv).
    pose proof (resolveVars_returns _ _ _ _ Hr) as (v0 & Hne & Hp & Hh & Hres & _).
    pose proof (configure_parsed _ _ _ _ _ _ Hc Hp) as (_ & _ & _ & Ht).
    rewrite (main_configured _ _ _ _ _ Hc). cbn [trace fst].
    rewrite forallb_app, Ht, (probe_quiet w v codes Hv Hq).
    rewrite resolutionTrace_quiet; [reflexivity|].
    rewrite <- (resolved_verbose w v0), <- Hres. exact Hq. }
  split; [exact H|].
  induction (trace (main args w)) as [|e l IH]; [reflexivity|].
  cbn [forallb] in H. apply andb_true_iff in H as [He Hl].
  cbn [List.filter]. destruct e; try discriminate; cbn [isOutput]; apply IH, Hl.
Qed.

(** A run of X9: a refused status code, a missing substring, TLS
    verification off, and not a word. *)
Lemma quiet_run_is_silent_witness :
  main ["-u"; "http://x"; "-k"; "-b"; "OK"; "-c"; "200"] (server noEnv 200 "ERROR")
  = ([HttpGet (mkClient 5000000000 true) "http://x"; ReadAll], Exit 1)
  /\ List.filter isOutput
       (trace (main ["-u"; "http://x"; "-k"; "-b"; "OK"; "-c"; "200"]
                 (server noEnv 200 "ERROR"))) = [].
Proof.
  split; [vm_compute; reflexivity|].
  refine (proj2 (quiet_run_is_silent _ _ []
            (mkVars "http://x" "" "200" "" false true false 5 "GET" "OK" "")
            (Some (<[200 := true]> ∅)) _ _)).
  - vm_compute. reflexivity.
  - reflexivity.
Defined.

(** ** Success *)

Lemma resolveVars_exit_0 args w t :
  resolveVars args w = (t, Exit 0) -> t = [Stdout MsgUsage].
Proof.
  destruct args as [|a r]; [intros [= <-]; reflexivity|].
  assert (a :: r <> []) as Hne by discriminate.
  destruct (parseArgs (a :: r) declared) as [tp [c'|v]] eqn:Hp.
  - unfold resolveVars.
    change (length (a :: r) =? 0)%nat with false. cbv iota.
    rewrite bind_ret, Hp. intros [= _ ->].
    apply parseArgs_exit in Hp. discriminate.
  - pose proof (parseArgs_returns _ _ _ _ Hp) as [-> _].
    rewrite (resolveVars_run _ w v Hne Hp).
    destruct (help v); [intros [= <-]; reflexivity|].
    destruct (GoString.isEmpty _); discriminate.
Qed.

(** X10: the process never reports success without a response.  A run with
    exit status 0 either printed the usage and nothing else (no arguments, or
    help), or sent its request and got a response. *)
Theorem success_needs_a_response args w :
  status (main args w) = 0 ->
  main args w = ([Stdout MsgUsage], Exit 0)
  \/ exists t v codes resp,
       configure args w = (t, Ret (v, codes)) /\ answer w v = Replied resp.
Proof.
  intros Hs. destruct (configure args w) as [t [c|[v codes]]] eqn:Hc.
  - left. unfold main in *. rewrite Hc in *. cbn [bind status snd] in *. subst c.
    unfold configure in Hc.
    destruct (resolveVars args w) as [tv [cv|v]] eqn:Hv.
    + injection Hc as <- ->. rewrite (resolveVars_exit_0 _ _ _ Hv). reflexivity.
    + unfold bind at 1 in Hc.
      destruct (parseAcceptedCodes _) as [tp [cp|codes]] eqn:Hp; simpl in Hc;
        [|discriminate].
      injection Hc as _ ->. apply parseAcceptedCodes_exit in Hp. discriminate.
  - right. exists t, v, codes.
    pose proof (configure_returns _ _ _ _ _ Hc) as (_ & _ & _ & _ & Hv).
    destruct (answer w v) as [resp|err] eqn:Ea; [eauto|].
    destruct (probe_trace w v codes Hv) as (_ & _ & _ & Herr).
    destruct (Herr err Ea) as [H1 _].
    rewrite (main_configured _ _ _ _ _ Hc) in Hs. unfold status in *. cbn [snd] in Hs.
    congruence.
Qed.

(** A run of X10: status 0 with a response. *)
Lemma success_needs_a_response_witness :
  main ["-u"; "http://x"] (server noEnv 204 "") = ([Stdout MsgUsage], Exit 0)
  \/ exists t v codes resp,
       configure ["-u"; "http://x"] (server noEnv 204 "") = (t, Ret (v, codes))
       /\ answer (server noEnv 204 "") v = Replied resp.
Proof. apply success_needs_a_response. reflexivity. Defined.

(** ** Variables that replace literals *)

Lemma configured_no_read args w t v codes :
  configure args w = (t, Ret (v, codes)) ->
  bodyContains v = "" ->
  ~ In ReadAll (trace (main args w)).
Proof.
  intros Hc Hb.
  pose proof (configure_returns _ _ _ _ _ Hc) as (_ & _ & _ & _ & Hv).
  rewrite (main_configured _ _ _ _ _ Hc). cbn [trace fst]. rewrite in_app_iff.
  intros [Hin|Hin].
  - pose proof (configure_beforeRequest args w) as Hbr. rewrite Hc in Hbr.
    exact (beforeRequest_no ReadAll t Hbr eq_refl Hin).
  - destruct (answer w v) as [resp|err] eqn:Ea.
    + destruct (probe_replied w v codes resp Hv Ea) as [_ Hr].
      apply Hr in Hin. unfold readsBody in Hin. rewrite Hb in Hin. discriminate.
    + destruct (probe_trace w v codes Hv) as (_ & _ & _ & Herr).
      destruct (Herr err Ea) as [_ Hn]. exact (Hn Hin).
Qed.

(** X11: when [-B] names a variable, the body substring is the value of the
    variable, whatever [-b] gave.  If the variable is empty or not set, the
    substring that [-b] gave is dropped with it: the body is not read and the
    body gate is off. *)
Theorem body_variable_overrides args w v t v' codes :
  parseArgs args declared = ret v ->
  bodyContainsEnvName v <> "" ->
  configure args w = (t, Ret (v', codes)) ->
  bodyContains v' = environ w (bodyContainsEnvName v)
  /\ (environ w (bodyContainsEnvName v) = "" -> ~ In ReadAll (trace (main args w))).
Proof.
  intros Hp HB Hc.
  pose proof (configure_parsed _ _ _ _ _ _ Hc Hp) as (_ & _ & Hv' & _).
  pose proof (resolved_fields w v) as (_ & _ & Hb). rewrite <- Hv' in Hb.
  apply nonEmpty_true in HB. rewrite HB in Hb. split; [exact Hb|].
  intros Henv. apply (configured_no_read _ _ _ _ _ Hc). congruence.
Qed.

(** A run of X11: [-b] asks for OK, BODY is not set, and a body without OK
    passes. *)
Lemma body_variable_overrides_witness :
  main ["-u"; "http://x"; "-b"; "OK"; "-B"; "BODY"] (server noEnv 200 "ERROR")
  = ([Getenv "BODY"; HttpGet (mkClient 5000000000 false) "http://x"], Exit 0)
  /\ ~ In ReadAll
       (trace (main ["-u"; "http://x"; "-b"; "OK"; "-B"; "BODY"] (server noEnv 200 "ERROR"))).
Proof.
  split; [vm_compute; reflexivity|].
  refine (proj2 (body_variable_overrides _ _
            (mkVars "http://x" "" "" "" false false false 5 "GET" "OK" "BODY")
            [Getenv "BODY"]
            (mkVars "http://x" "" "" "" false false false 5 "GET" "" "BODY")
            None _ _ _) _).
  - reflexivity.
  - discriminate.
  - vm_compute. reflexivity.
  - reflexivity.
Defined.

(** X12: when [-C] names a variable and no body substring is given, the
    accepted codes are the value of the variable, whatever [-c] gave.  If the
    variable is empty or not set, the codes that [-c] gave are dropped with
    it: no code is checked and every response gives exit 0. *)
Theorem codes_variable_overrides args w v t v' codes resp :
  parseArgs args declared = ret v ->
  acceptedCodesEnvName v <> "" ->
  bodyContains v = "" ->
  bodyContainsEnvName v = "" ->
  configure args w = (t, Ret (v', codes)) ->
  acceptedCodesStr v' = environ w (acceptedCodesEnvName v)
  /\ (environ w (acceptedCodesEnvName v) = "" ->
      answer w v' = Replied resp ->
      codes = None /\ status (main args w) = 0).
Proof.
  intros Hp HC Hb HB Hc.
  pose proof (configure_parsed _ _ _ _ _ _ Hc Hp) as (_ & _ & Hv' & _).
  pose proof (resolved_fields w v) as (_ & Hs & Hbody). rewrite <- Hv' in Hs, Hbody.
  assert (codesFromEnv v = true) as E.
  { unfold codesFromEnv. apply nonEmpty_true in HC. rewrite HC, Hb, HB. reflexivity. }
  rewrite E in Hs. rewrite HB, Hb in Hbody. cbn in Hbody.
  split; [exact Hs|]. intros Henv Ha. rewrite Henv in Hs.
  pose proof (configure_no_codes _ _ _ _ _ Hc Hs) as ->. split; [reflexivity|].
  pose proof (configure_returns _ _ _ _ _ Hc) as (_ & _ & _ & _ & Hm).
  rewrite (main_configured _ _ _ _ _ Hc). unfold status at 1; cbn [snd].
  exact (probe_without_criteria w v' resp Hm Hbody Ha).
Qed.

(** A run of X12: [-c] asks for 200, CODES is not set, and a response with
    status 500 passes. *)
Lemma codes_variable_overrides_witness :
  main ["-u"; "http://x"; "-c"; "200"; "-C"; "CODES"] (server noEnv 500 "")
  = ([Getenv "CODES"; HttpGet (mkClient 5000000000 false) "http://x"], Exit 0)
  /\ status (main ["-u"; "http://x"; "-c"; "200"; "-C"; "CODES"] (server noEnv 500 "")) = 0.
Proof.
  split; [vm_compute; reflexivity|].
  refine (proj2 (proj2 (codes_variable_overrides _ _
            (mkVars "http://x" "" "200" "CODES" false false false 5 "GET" "" "")
            [Getenv "CODES"]
            (mkVars "http://x" "" "" "CODES" false false false 5 "GET" "" "")
            None (mkResponse 500 (BodyBytes "")) _ _ _ _ _) _ _)).
  - reflexivity.
  - discriminate.
  - reflexivity.
  - reflexivity.
  - vm_compute. reflexivity.
  - reflexivity.
  - reflexivity.
Defined.

(** ** Empty elements of the accepted codes *)

Lemma splitComma_comma a b :
  GoString.splitComma (a +:+ String "," b)
  = (fst (GoString.splitComma a), snd (GoString.splitComma a) ++ GoString.Split b).
Proof.
  unfold GoString.Split. induction a as [|c a IH].
  - rewrite append_empty. simpl. destruct (GoString.splitComma b). reflexivity.
  - rewrite append_cons. simpl. rewrite IH.
    destruct (GoString.splitComma a) as [hd tl], (GoString.splitComma b) as [hb tb].
    simpl. destruct (GoString.byteIs c 44); reflexivity.
Qed.

(** Splitting at a comma splits the list of fields. *)
Lemma Split_comma a b :
  GoString.Split (a +:+ String "," b) = GoString.Split a ++ GoString.Split b.
Proof.
  unfold GoString.Split at 1 2. rewrite splitComma_comma.
  destruct (GoString.splitComma a). reflexivity.
Qed.

Lemma WhiteSpace_commaFree ws : WhiteSpace ws -> commaFree ws = true.
Proof.
  assert (forall x, GoString.byteZ x <> 44 -> negb (GoString.byteIs x 44) = true) as Hx.
  { intros x H. unfold GoString.byteIs. destruct (Z.eqb_spec (GoString.byteZ x) 44);
      [contradiction|reflexivity]. }
  induction 1 as [|a p Ha _ IH|a b p Hab _ IH|a b c p Habc _ IH]; simpl; [reflexivity|..].
  - apply asciiSpace_bounds in Ha. rewrite Hx, IH by lia. reflexivity.
  - apply space2_bounds in Hab. rewrite !Hx, IH by lia. reflexivity.
  - apply space3_bounds in Habc. rewrite !Hx, IH by lia. reflexivity.
Qed.

Lemma Split_field ws : WhiteSpace ws -> GoString.Split ws = [ws].
Proof.
  intros H. unfold GoString.Split. rewrite splitComma_last; [reflexivity|].
  apply WhiteSpace_commaFree, H.
Qed.

(** White space alone is not a code. *)
Lemma codeOf_WhiteSpace ws : WhiteSpace ws -> codeOf ws = None.
Proof.
  intros H. unfold codeOf.
  rewrite <- (append_empty_r ws), <- (append_empty ""), (TrimSpace_padding ws "" "" H ws_empty).
  reflexivity.
Qed.

(** An element that is not a code ends the process before the request. *)
Lemma bad_code_exits args w t v e :
  resolveVars args w = (t, Ret v) ->
  acceptedCodesStr v <> "" ->
  e ∈ GoString.Split (acceptedCodesStr v) ->
  codeOf e = None ->
  status (main args w) = 1 /\ requests (trace (main args w)) = [].
Proof.
  intros Hv Hs Hin He.
  assert (exists tr, rangeCodes (GoString.Split (acceptedCodesStr v)) ∅ = (tr, Exit 1)
                     /\ forallb isOutput tr = true) as (tr & Hr & Ho).
  { pose proof (rangeCodes_output (GoString.Split (acceptedCodesStr v)) ∅) as Ho.
    destruct (rangeCodes _ ∅) as [tr [c|m]] eqn:E.
    - pose proof (rangeCodes_exits _ _ _ _ E) as [-> _]. eauto.
    - apply rangeCodes_returns in E as (_ & Hall & _).
      rewrite Forall_forall in Hall. destruct (Hall e Hin He). }
  unfold main, configure, parseAcceptedCodes.
  apply nonEmpty_true in Hs. rewrite Hv, bind_value, Hs, Hr. cbn [fst snd bind status trace].
  split; [reflexivity|]. rewrite requests_app.
  pose proof (resolveVars_beforeRequest args w) as Hb. rewrite Hv in Hb.
  rewrite (requests_beforeRequest t Hb).
  apply requests_beforeRequest, isOutput_beforeRequest, Ho.
Qed.

Lemma append_comma_nonempty a b : a +:+ String "," b <> "".
Proof. destruct a; discriminate. Qed.

(** X13: an accepted-codes string with an empty or blank element (a leading,
    trailing or doubled comma, or nothing but white space between two
    commas or as the whole string) ends the process with status 1 before any
    request: the empty string is not an integer. *)
Theorem blank_code_element_is_fatal args w t v a b ws :
  resolveVars args w = (t, Ret v) ->
  WhiteSpace ws ->
  (acceptedCodesStr v = ws /\ ws <> "")
  \/ acceptedCodesStr v = ws +:+ String "," b
  \/ acceptedCodesStr v = a +:+ String "," ws
  \/ acceptedCodesStr v = a +:+ String "," (ws +:+ String "," b) ->
  status (main args w) = 1 /\ requests (trace (main args w)) = [].
Proof.
  intros Hv Hws Hshape.
  apply (bad_code_exits args w t v ws Hv); [| |apply codeOf_WhiteSpace, Hws].
  - destruct Hshape as [[-> Hne] | [-> | [-> | ->]]]; auto using append_comma_nonempty.
  - destruct Hshape as [[-> _] | [-> | [-> | ->]]];
      rewrite ?Split_comma, ?(Split_field ws Hws); set_solver.
Qed.

(** A run of X13: a trailing comma. *)
Lemma blank_code_element_is_fatal_witness :
  main ["-u"; "http://x"; "-c"; "200,"] (server noEnv 200 "")
  = ([Stderr (MsgBadCode "")], Exit 1)
  /\ status (main ["-u"; "http://x"; "-c"; "200,"] (server noEnv 200 "")) = 1.
Proof.
  split; [vm_compute; reflexivity|].
  refine (proj1 (blank_code_element_is_fatal _ _ []
            (mkVars "http://x" "" "200," "" false false false 5 "GET" "" "")
            "200" "" "" _ ws_empty _)).
  - reflexivity.
  - right. right. left. reflexivity.
Defined.

(** ** The body substring *)

Lemma HasPrefix_occurs s p : GoString.HasPrefix s p = true <-> exists q, s = p +:+ q.
Proof.
  revert s. induction p as [|a p IH]; intros s.
  - split; [exists s; reflexivity|destruct s; reflexivity].
  - destruct s as [|b s]; simpl.
    + split; [discriminate|]. intros [q Hq]. discriminate.
    + destruct (Ascii.eqb_spec a b) as [->|Hne].
      * rewrite IH. split; intros [q Hq]; exists q.
        -- rewrite append_cons, Hq. reflexivity.
        -- rewrite append_cons in Hq. congruence.
      * split; [discriminate|]. intros [q Hq]. rewrite append_cons in Hq. congruence.
Qed.

Lemma Contains_unfold s sub :
  GoString.Contains s sub
  = if GoString.HasPrefix s sub then true
    else match s with
         | EmptyString => false
         | String _ r => GoString.Contains r sub
         end.
Proof. destruct s; reflexivity. Qed.

(** [Contains] is true exactly when the substring occurs at some offset. *)
Lemma Contains_occurs s sub :
  GoString.Contains s sub = true <-> exists p q, s = p +:+ sub +:+ q.
Proof.
  induction s as [|a s IH]; rewrite Contains_unfold;
    destruct (GoString.HasPrefix _ sub) eqn:E;
    try (apply HasPrefix_occurs in E as [q Hq];
         split; [exists "", q; exact Hq|reflexivity]).
  - split; [discriminate|]. intros (p & q & H).
    destruct p; [|discriminate]. rewrite append_empty in H.
    assert (GoString.HasPrefix "" sub = true) by (apply HasPrefix_occurs; eauto).
    congruence.
  - rewrite IH. split.
    + intros (p & q & ->). exists (String a p), q. reflexivity.
    + intros (p & q & H). destruct p as [|a' p].
      * rewrite append_empty in H.
        assert (GoString.HasPrefix (String a s) sub = true)
          by (apply HasPrefix_occurs; eauto).
        congruence.
      * rewrite append_cons in H. injection H as _ ->. eauto.
Qed.

(** X14: the body gate passes exactly when the substring occurs in the
    body, at any byte offset and compared byte for byte.  With the substring
    somewhere in the body the exit status is that of the status-code check;
    with no occurrence it is 1. *)
Theorem body_gate_is_substring_occurrence args w t v codes resp body :
  configure args w = (t, Ret (v, codes)) ->
  answer w v = Replied resp ->
  bodyContains v <> "" ->
  httpMethod v = "GET" ->
  Body resp = BodyBytes body ->
  ((exists p q, body = p +:+ bodyContains v +:+ q) ->
     status (main args w) = codeStatus codes (StatusCode resp))
  /\ ((forall p q, body <> p +:+ bodyContains v +:+ q) -> status (main args w) = 1).
Proof.
  intros Hc Ha Hb Hm HB. rewrite (configured_status _ _ _ _ _ _ Hc Ha).
  unfold readsBody. apply nonEmpty_true in Hb. rewrite Hb, Hm, HB. cbn [String.eqb andb].
  change (String.eqb "GET" "GET") with true. cbv iota.
  pose proof (Contains_occurs body (bodyContains v)) as Hocc.
  destruct (GoString.Contains body (bodyContains v)); split; try reflexivity.
  - intros Hno. destruct (proj1 Hocc eq_refl) as (p & q & H). destruct (Hno p q H).
  - intros H. apply Hocc in H. discriminate.
Qed.

(** A run of X14: the substring in the middle of the body. *)
Lemma body_gate_is_substring_occurrence_witness :
  status (main ["-u"; "http://x"; "-b"; "OK"] (server noEnv 503 "status: OK (degraded)")) = 0.
Proof.
  refine (proj1 (body_gate_is_substring_occurrence _ _ []
            (mkVars "http://x" "" "" "" false false false 5 "GET" "OK" "") None
            (mkResponse 503 (BodyBytes "status: OK (degraded)")) "status: OK (degraded)"
            _ _ _ _ _) _).
  - reflexivity.
  - reflexivity.
  - discriminate.
  - reflexivity.
  - reflexivity.
  - exists "status: ", " (degraded)". reflexivity.
Defined.

(** ** The timeout of the request *)

Lemma resolved_timeoutSeconds w v : timeoutSeconds (resolved w v) = timeoutSeconds v.
Proof.
  unfold resolved.
  destruct (nonEmpty (urlEnvName v)); simpl;
    destruct (_ && _); simpl;
    destruct (nonEmpty (bodyContainsEnvName v)); simpl; reflexivity.
Qed.


(** The request of a run that reaches it. *)
Lemma configured_requests args w t v codes :
  configure args w = (t, Ret (v, codes)) ->
  requests (trace (main args w)) = [requestOf v].
Proof.
  intros Hc. pose proof (configure_beforeRequest args w) as Hb. rewrite Hc in Hb.
  pose proof (configure_returns _ _ _ _ _ Hc) as (_ & _ & _ & _ & Hv).
  destruct (probe_trace w v codes Hv) as (Hreq & _).
  rewrite (main_configured _ _ _ _ _ Hc). cbn [trace fst].
  rewrite requests_app, (requests_beforeRequest t Hb), Hreq. reflexivity.
Qed.

(** A number of seconds is a duration without wrap-around exactly between
    these bounds. *)
Lemma seconds_exact n :
  seconds n = n * 1000000000 <-> -9223372036 <= n <= 9223372036.
Proof.
  unfold seconds, wrapInt64, Second.
  pose proof (Z.mod_pos_bound (n * 1000000000 + 2 ^ 63) (2 ^ 64) ltac:(lia)) as Hb.
  split.
  - intros H. lia.
  - intros H. rewrite Z.mod_small by lia. lia.
Qed.

(** X15: the timeout of the request is the value of the last [-t] or
    [--timeout], as a duration in nanoseconds.  Values from -9223372036 to
    9223372036 seconds are kept exactly; a value outside these bounds wraps
    around in the multiplication of line 230 and the request is sent with a
    different duration. *)
Theorem timeout_of_the_request pre flag x post w n t v codes :
  wholeOptions pre ->
  flag = "-t" \/ flag = "--timeout" ->
  Strconv.Atoi x = Some n ->
  Forall (fun a => switchArg a <> Some OptTimeout) post ->
  configure (pre ++ flag :: x :: post) w = (t, Ret (v, codes)) ->
  requests (trace (main (pre ++ flag :: x :: post) w)) = [requestOf v]
  /\ Timeout (clientOf v) = seconds n
  /\ (-9223372036 <= n <= 9223372036 -> Timeout (clientOf v) = n * 1000000000)
  /\ (n < -9223372036 \/ 9223372036 < n -> Timeout (clientOf v) <> n * 1000000000).
Proof.
  intros [v1 Hpre] Hflag Hx Hpost Hc.
  split; [apply (configured_requests _ _ _ _ _ Hc)|].
  assert (timeoutSeconds v = n) as Ht.
  { pose proof (parseArgs_app pre declared v1 (flag :: x :: post) Hpre) as Happ.
    simpl parseArgs in Happ at 2. rewrite (switchArg_timeout flag Hflag), Hx in Happ.
    pose proof (configure_returns _ _ _ _ _ Hc) as (t' & Hr & _).
    pose proof (resolveVars_returns _ _ _ _ Hr) as (v0 & _ & Hp & _ & -> & _).
    rewrite resolved_timeoutSeconds. rewrite Hp in Happ. symmetry in Happ.
    apply (parseArgs_timeout post _ _ Happ Hpost). }
  unfold clientOf. cbn [Timeout]. rewrite Ht. split; [reflexivity|].
  split; [apply seconds_exact|]. intros Hout Heq. apply seconds_exact in Heq. lia.
Qed.

(** A run of X15: ten thousand million seconds wrap around to a negative
    duration. *)
Lemma timeout_of_the_request_witness :
  requests (trace (main ["-u"; "http://x"; "-t"; "10000000000"] (server noEnv 200 "")))
  = [HttpGet (mkClient (-8446744073709551616) false) "http://x"]
  /\ Timeout (clientOf (mkVars "http://x" "" "" "" false false false 10000000000 "GET" "" ""))
     <> 10000000000 * 1000000000.
Proof.
  split; [vm_compute; reflexivity|].
  refine (proj2 (proj2 (proj2 (timeout_of_the_request ["-u"; "http://x"] "-t" "10000000000" []
            (server noEnv 200 "") 10000000000 []
            (mkVars "http://x" "" "" "" false false false 10000000000 "GET" "" "") None
            _ _ _ _ _))) _).
  - eexists. reflexivity.
  - left. reflexivity.
  - reflexivity.
  - constructor.
  - reflexivity.
  - right. lia.
Defined.

(** ** The flags *)




(** ** Options without their value *)

(** X17: an option that takes a value and is the last argument ends the
    process with status 1 and the diagnostic that names the option, on the
    standard output, before any environment read or request. *)
Theorem missing_value_is_fatal pre flag o w :
  wholeOptions pre ->
  switchArg flag = Some o ->
  takesValue o = true ->
  main (pre ++ [flag]) w = ([Stdout (MsgNeedsArg (optionLabel o))], Exit 1).
Proof.
  intros [v1 Hpre] Hflag Ho.
  apply main_loop_exit; [destruct pre; discriminate|].
  rewrite (parseArgs_app pre declared v1 [flag] Hpre). simpl. rewrite Hflag.
  destruct o; try discriminate; reflexivity.
Qed.

(** A run of X17: [--timeout] at the end of the arguments. *)
Lemma missing_value_is_fatal_witness :
  main ["-u"; "http://x"; "--timeout"] (server noEnv 200 "")
  = ([Stdout (MsgNeedsArg "-t/--timeout")], Exit 1).
Proof.
  refine (missing_value_is_fatal ["-u"; "http://x"] "--timeout" OptTimeout
            (server noEnv 200 "") _ _ _).
  - eexists. reflexivity.
  - reflexivity.
  - reflexivity.
Defined.

(** ** Repeated options *)

Lemma turn_stored o arg rest v v' rest' :
  turn arg rest v = ret (v', rest') ->
  switchArg arg <> Some o ->
  storedIn o v' = storedIn o v.
Proof.
  unfold turn, ret.
  destruct (switchArg arg) as [[]|]; try destruct rest as [|x r];
    try discriminate;
    try (intros [= <- <-] Hne; destruct o; try reflexivity; congruence).
  - destruct (Strconv.Atoi x); [|discriminate].
    intros [= <- <-] Hne; destruct o; try reflexivity; congruence.
  - destruct (_ || _); [|discriminate].
    intros [= <- <-] Hne; destruct o; try reflexivity; congruence.
Qed.

Lemma parseArgs_stored o args :
  forall v v', parseArgs args v = ret v' ->
    Forall (fun a => switchArg a <> Some o) args ->
    storedIn o v' = storedIn o v.
Proof.
  induction args as [|arg rest IH] using loop_ind; intros v v'.
  - intros [= <-]. reflexivity.
  - rewrite parseArgs_turn. intros H Hall.
    apply bind_returns in H as (t1 & [v1 r1] & t2 & Ht & Hp & Happ).
    pose proof (turn_returns _ _ _ _ _ _ Ht) as [-> _].
    simpl in Happ. subst t2. cbn [fst snd] in Hp.
    inversion Hall as [|? ? Harg Hrest]; subst.
    rewrite (IH v v1 r1 Ht v1 v' Hp), (turn_stored _ _ _ _ _ _ Ht Harg); [reflexivity|].
    destruct (turn_rest _ _ _ _ _ Ht) as [->|[x ->]]; [exact Hrest|].
    inversion Hrest; assumption.
Qed.

(** X18: an option with a value may be repeated, and its last occurrence
    decides: the variable holds the value given there, whatever came before.
    An option that does not occur leaves its variable at the declared value,
    the empty string, or GET for the method. *)
Theorem last_occurrence_decides pre flag o x post v :
  wholeOptions pre ->
  switchArg flag = Some o ->
  storedAsGiven o = true ->
  Forall (fun a => switchArg a <> Some o) post ->
  parseArgs (pre ++ flag :: x :: post) declared = ret v ->
  storedIn o v = x
  /\ forall o', Forall (fun a => switchArg a <> Some o') (pre ++ flag :: x :: post) ->
       storedIn o' v = storedIn o' declared.
Proof.
  intros [v1 Hpre] Hflag Ho Hpost Hp. split.
  - rewrite (parseArgs_app pre declared v1 (flag :: x :: post) Hpre) in Hp.
    cbn [parseArgs] in Hp. rewrite Hflag in Hp.
    destruct o; try discriminate;
      rewrite (parseArgs_stored _ _ _ _ Hp Hpost); reflexivity.
  - intros o' Hall. exact (parseArgs_stored _ _ _ _ Hp Hall).
Qed.

(** A run of X18: the second [-u] gives the URL of the request. *)
Lemma last_occurrence_decides_witness :
  requests (trace (main ["-u"; "http://a"; "-k"; "--url"; "http://b"; "-v"]
                     (server noEnv 200 "")))
  = [HttpGet (mkClient 5000000000 true) "http://b"]
  /\ storedIn OptUrl (mkVars "http://b" "" "" "" true true false 5 "GET" "" "")
     = "http://b".
Proof.
  split; [vm_compute; reflexivity|].
  refine (proj1 (last_occurrence_decides ["-u"; "http://a"; "-k"] "--url" OptUrl
                   "http://b" ["-v"] _ _ _ _ _ _)).
  - eexists. reflexivity.
  - reflexivity.
  - reflexivity.
  - repeat constructor. discriminate.
  - reflexivity.
Defined.

(** ** The usage text and the switch *)





